(** * Operator and istioctl support code: validation walker, diff walker,
      sync-status printer and sidecar bootstrap composer.

    A shallow embedding of
    - the sync-status writers of package [pilot]       (module [Pilot]),
    - [istioctl/cmd/sidecar-bootstrap.go]               (module [Bootstrap]),
    - [istioctl/cmd/revision.go]                        (module [Revision]),
    - [operator/pkg/validate/validate.go]               (module [Validate]),
    followed by the properties established about them.  Logging
    ([scope.Debugf]) and the metrics counter ([CRValidationFailure]) have no
    influence on the results and are left out. *)

From Stdlib Require Import Strings.String Strings.Ascii Strings.Byte.
From Stdlib Require QArith.Qcanon.
From stdpp Require Import base option list strings gmap numbers pretty.

Local Open Scope string_scope.
Local Open Scope list_scope.

Abbreviation Qc := Qcanon.Qc.

Set Warnings "-register-all".

(** ** Results of Go calls

    A Go call either returns or panics (index out of range, nil
    dereference, misuse of [reflect]).  Panics are not recovered anywhere
    in the modelled code, so they propagate to the caller. *)

Inductive outcome (A : Type) : Type :=
  | Return (a : A)
  | Panic (reason : string).
Arguments Return {A} a.
Arguments Panic {A} reason.

#[global] Instance outcome_ret : MRet outcome := fun _ a => Return a.

#[global] Instance outcome_bind : MBind outcome := fun _ _ k m =>
  match m with
  | Return a => k a
  | Panic r => Panic r
  end.

(** Text helpers of the Go standard library. *)

Definition tab : string := String "009" EmptyString.
Definition newline : string := String "010" EmptyString.

(** [strings.Join]. *)
Fixpoint Join (elems : list string) (sep : string) : string :=
  match elems with
  | [] => ""
  | [e] => e
  | e :: rest => e +:+ sep +:+ Join rest sep
  end.

(** * Sync-status printer *)

Module Pilot.

(** [func xdsStatus(sent, acked string) string] *)
Definition xdsStatus (sent acked : string) : string :=
  if String.eqb sent "" then "NOT SENT"
  else if String.eqb sent acked then "SYNCED"
  else if String.eqb acked "" then "STALE (Never Acknowledged)"
  else "STALE".

(** Modelled from the spec: the per-type status record and [xds.SyncStatus]
    (package [pilot/pkg/xds], embedded in [writerStatus]) are declared
    outside the modelled files; the fields are the ones [statusPrintln]
    reads: a sent and an acked nonce per discovery-resource type, the
    legacy singular cluster/listener/route/endpoint pairs, the proxy
    identity and the two version strings. *)
Record XdsStatus := mkXdsStatus {
  NonceSent : string;
  NonceAcked : string;
}.

Record SyncStatus := mkSyncStatus {
  ProxyID : string;
  ProxyVersion : string;
  IstioVersion : string;
  ClusterSent : string;
  ClusterAcked : string;
  ListenerSent : string;
  ListenerAcked : string;
  RouteSent : string;
  RouteAcked : string;
  EndpointSent : string;
  EndpointAcked : string;
  Statuses : gmap string XdsStatus;
}.

(** [type writerStatus struct { pilot string; xds.SyncStatus }] *)
Record writerStatus := mkWriterStatus {
  pilot : string;
  status : SyncStatus;
}.

(** [type StatusWriter struct { Writer io.Writer; XDSCols []string }].
    The writer handed to [statusPrintln] is represented by the text
    written to it so far. *)
Record StatusWriter := mkStatusWriter {
  XDSCols : list string;
}.

(** Indexing a Go map yields the zero value for an absent key. *)
Definition statusOf (m : gmap string XdsStatus) (key : string) : XdsStatus :=
  default (mkXdsStatus "" "") (m !! key).

Section StatusPrintln.

(** [v3.GetShortType] lives in [pilot/pkg/xds/v3]; it is kept abstract. *)
Variable GetShortType : string → string.

(** The body of the loop over [s.XDSCols] in [statusPrintln]: the status
    computed for one column. *)
Definition curStatus (sw : writerStatus) (ty : string) : string :=
  let curStatus :=
    xdsStatus (NonceSent (statusOf (Statuses (status sw)) (GetShortType ty)))
              (NonceAcked (statusOf (Statuses (status sw)) (GetShortType ty))) in
  if String.eqb ty "CDS" then
    xdsStatus (ClusterSent (status sw)) (ClusterAcked (status sw))
  else if String.eqb ty "LDS" then
    xdsStatus (ListenerSent (status sw)) (ListenerAcked (status sw))
  else if String.eqb ty "RDS" then
    xdsStatus (RouteSent (status sw)) (RouteAcked (status sw))
  else if String.eqb ty "EDS" then
    xdsStatus (EndpointSent (status sw)) (EndpointAcked (status sw))
  else curStatus.

(** [func (s *StatusWriter) statusPrintln(w io.Writer, sw *writerStatus) error].
    Returns the writer after the row was written, and the (always nil)
    error. *)
Definition statusPrintln (s : StatusWriter) (w : string) (sw : writerStatus)
  : string * option string :=
  let statuses :=
    fold_left (fun statuses ty => statuses ++ [curStatus sw ty]) (XDSCols s) [] in
  let version :=
    if String.eqb (IstioVersion (status sw)) ""
    then ProxyVersion (status sw) +:+ "*"
    else IstioVersion (status sw) in
  (w +:+ ProxyID (status sw) +:+ tab +:+ Join statuses tab +:+ tab
     +:+ pilot sw +:+ tab +:+ version +:+ newline,
   None).

End StatusPrintln.

(** ** The protocol-response entry point *)

(** [io.Writer]: an implementation takes the state of the sink and the bytes
    handed to [Write] to the new state of the sink and the error returned. *)
Class IoWriter (W : Type) := Write : W → list byte → W * option string.

(** A sink that records the payload of every [Write] call, in order. *)
Definition Recorder : Type := list (list byte).

#[global] Instance recorder_Write : IoWriter Recorder :=
  fun w p => (w ++ [p], None).

(** [anypb.Any]: a type URL and the serialized payload. *)
Record Any := mkAny {
  TypeUrl : string;
  Value : list byte;
}.

(** [xdsapi.DiscoveryResponse], as far as the writer reads it. *)
Record DiscoveryResponse := mkDiscoveryResponse {
  Resources : list Any;
  ControlPlaneIdentifier : string;
}.

(** The oneof of [xdsstatus.PerXdsConfig]. *)
Inductive isPerXdsConfig :=
  | PerXdsConfig_ListenerConfig
  | PerXdsConfig_ClusterConfig
  | PerXdsConfig_RouteConfig
  | PerXdsConfig_EndpointConfig
  | PerXdsConfig_ScopedRouteConfig
  | PerXdsConfig_unexpected.

Record PerXdsConfig := mkPerXdsConfig {
  Status_String : string;            (* [config.Status.String()] *)
  PerXdsConfig_oneof : isPerXdsConfig;
}.

Record ClientConfig := mkClientConfig {
  Node_Id : string;
  XdsConfig : list PerXdsConfig;
}.

Record xdsWriterStatus := mkXdsWriterStatus {
  proxyID : string;
  istiodID : string;
  istiodVersion : string;
  clusterStatus : string;
  listenerStatus : string;
  routeStatus : string;
  endpointStatus : string;
}.

(** [text/tabwriter.Writer]: cells are buffered until [Flush]. *)
Record tabwriter := mkTabwriter { cells : string }.

Definition ClientConfigTypeUrl : string :=
  "type.googleapis.com/envoy.service.status.v3.ClientConfig".

(** [func getSyncStatus(configs []*xdsstatus.PerXdsConfig) (cds, lds, eds, rds string)] *)
Definition getSyncStatus (configs : list PerXdsConfig)
  : string * string * string * string :=
  fold_left
    (fun '(cds, lds, eds, rds) config =>
       match PerXdsConfig_oneof config with
       | PerXdsConfig_ListenerConfig => (cds, Status_String config, eds, rds)
       | PerXdsConfig_ClusterConfig => (Status_String config, lds, eds, rds)
       | PerXdsConfig_RouteConfig => (cds, lds, eds, Status_String config)
       | PerXdsConfig_EndpointConfig => (cds, lds, Status_String config, rds)
       | PerXdsConfig_ScopedRouteConfig => (cds, lds, eds, rds)
       | PerXdsConfig_unexpected => (cds, lds, eds, rds)
       end)
    configs ("", "", "", "").

(** [func xdsStatusPrintln(w io.Writer, status *xdsWriterStatus) error],
    on the table writer. *)
Definition xdsStatusPrintln (w : tabwriter) (st : xdsWriterStatus)
  : tabwriter * option string :=
  (mkTabwriter
     (cells w +:+ proxyID st +:+ tab
        +:+ clusterStatus st +:+ tab +:+ listenerStatus st +:+ tab
        +:+ endpointStatus st +:+ tab +:+ routeStatus st +:+ tab
        +:+ istiodID st +:+ tab +:+ istiodVersion st +:+ newline),
   None).

Section XdsStatusWriter.

Context {W : Type} `{!IoWriter W}.

(** Collaborators outside the modelled files: protobuf decoding of a
    resource ([resource.UnmarshalTo]), [multixds.CpInfo] (identity and
    version of the control plane that answered), [sort.Slice] with the
    proxy-identity order, and the column alignment done by the table writer
    when it is flushed. *)
Variable UnmarshalTo : Any → ClientConfig + string.
Variable CpInfo : DiscoveryResponse → string * string.
Variable sortByProxyID : list xdsWriterStatus → list xdsWriterStatus.
Variable tabformat : string → list byte.

(** The state threaded through [setupStatusPrint]: the sink [s.Writer], the
    table writer [w] (nil until a ClientConfig resource is seen) and the rows
    gathered so far; [stop] holds the error of an early return. *)
Record setup := mkSetup {
  sink : W;
  tw : option tabwriter;
  fullStatus : list xdsWriterStatus;
  stop : option string;
}.

(** The [default:] branch: every resource of the response is written
    through, write errors are dropped. *)
Definition writeThrough (out : W) (dr : DiscoveryResponse) : W :=
  fold_left (fun out resource => fst (Write out (Value resource)))
            (Resources dr) out.

(** One iteration of the inner loop over [dr.Resources]. *)
Definition setupResource (ndrs : nat) (dr : DiscoveryResponse) (st : setup)
    (resource : Any) : setup :=
  match stop st with
  | Some _ => st
  | None =>
    if String.eqb (TypeUrl resource) ClientConfigTypeUrl then
      match UnmarshalTo resource with
      | inr err =>
          mkSetup (sink st) None []
                  (Some ("could not unmarshal ClientConfig: " +:+ err))
      | inl clientConfig =>
          let '(cds, lds, eds, rds) := getSyncStatus (XdsConfig clientConfig) in
          let cp := CpInfo dr in
          let fullStatus :=
            fullStatus st ++
              [mkXdsWriterStatus (Node_Id clientConfig) (fst cp) (snd cp)
                                 cds lds rds eds] in
          if Nat.eqb (length fullStatus) 0 then
            mkSetup (sink st) None []
                    (Some ("no proxies found (checked " +:+ pretty ndrs
                             +:+ " istiods)"))
          else
          let w := mkTabwriter ("NAME" +:+ tab +:+ "CDS" +:+ tab +:+ "LDS"
                                  +:+ tab +:+ "EDS" +:+ tab +:+ "RDS" +:+ tab
                                  +:+ "ISTIOD" +:+ tab +:+ "VERSION" +:+ newline) in
          mkSetup (sink st) (Some w) (sortByProxyID fullStatus) None
      end
    else
      mkSetup (writeThrough (sink st) dr) (tw st) [] None
  end.

(** [func (s *XdsStatusWriter) setupStatusPrint(drs map[string]*xdsapi.DiscoveryResponse)].
    The map is given by its entries in the order the [range] visits them. *)
Definition setupStatusPrint (out : W) (drs : list (string * DiscoveryResponse))
  : setup :=
  fold_left
    (fun st '(_, dr) =>
       fold_left (setupResource (length drs) dr) (Resources dr) st)
    drs (mkSetup out None [] None).

(** [func (w *tabwriter.Writer) Flush() error] *)
Definition Flush (w : tabwriter) (out : W) : W * option string :=
  Write out (tabformat (cells w)).

(** The loop of [PrintAll] over the gathered rows; printing to the nil
    table writer is a nil dereference. *)
Fixpoint printRows (w : option tabwriter) (rows : list xdsWriterStatus)
  : outcome (option tabwriter * option string) :=
  match rows with
  | [] => Return (w, None)
  | st :: rest =>
      match w with
      | None => Panic "invalid memory address or nil pointer dereference"
      | Some t =>
          match xdsStatusPrintln t st with
          | (t', Some err) => Return (Some t', Some err)
          | (t', None) => printRows (Some t') rest
          end
      end
  end.

(** [func (s *XdsStatusWriter) PrintAll(statuses map[string]*xdsapi.DiscoveryResponse) error]:
    the final state of [s.Writer] and the error returned. *)
Definition PrintAll (out : W) (statuses : list (string * DiscoveryResponse))
  : outcome (W * option string) :=
  let st := setupStatusPrint out statuses in
  match stop st with
  | Some err => Return (sink st, Some err)
  | None =>
      '(w, err) ← printRows (tw st) (fullStatus st);
      match err with
      | Some e => Return (sink st, Some e)
      | None =>
          match w with
          | Some t => Return (Flush t (sink st))
          | None => Return (sink st, None)
          end
      end
  end.

(** A resource of a payload type other than ClientConfig. *)
Definition rawResource (resource : Any) : Prop :=
  String.eqb (TypeUrl resource) ClientConfigTypeUrl = false.

(** What the passthrough path leaves in the sink: for every resource of a
    response, all resources of that response are written. *)
Definition passedThrough (out : W) (drs : list (string * DiscoveryResponse)) : W :=
  fold_left
    (fun out '(_, dr) =>
       fold_left (fun out _ => writeThrough out dr) (Resources dr) out)
    drs out.

End XdsStatusWriter.

End Pilot.

(** * Sidecar bootstrap composer *)

Module Bootstrap.

(** [bootstrapBundle.BootstrapBundle], without the [Workload] entry, which
    [processBundle] does not read. *)
Record BootstrapBundle := mkBootstrapBundle {
  (* mesh *)
  IstioCaCert : list byte;
  IstioIngressGatewayAddress : string;
  (* workload *)
  ServiceAccountToken : list byte;
  (* sidecar *)
  IstioProxyContainerName : string;
  IstioProxyImage : string;
  IstioProxyEnvironment : list byte;
  IstioProxyArgs : list string;
  IstioProxyHosts : list string;
}.

(** [os.FileMode] permission bits, as a number. *)
Record fileToCopy := mkFileToCopy {
  name : string;
  dir : string;
  perm : N;
  data : list byte;
}.

Record cmdToExec := mkCmdToExec {
  cmd : string;
  required : bool;
}.

Record bootstrapItems := mkBootstrapItems {
  filesToCopy : list fileToCopy;
  cmdsToExec : list cmdToExec;
}.

Definition configFilePerm : N := 0x1a4.   (* 0644 *)
Definition secretFilePerm : N := 0x1a0.   (* 0640 *)

(** The [cmd] slice of [processBundle] once the loop over the host aliases,
    the image and the arguments have been appended. *)
Definition launchArgs (bundle : BootstrapBundle) (remoteDir : string)
  : list string :=
  let cmd :=
    [ "docker"; "run"; "-d";
      "--name"; IstioProxyContainerName bundle;
      "--restart"; "unless-stopped";
      "--network"; "host";
      "-v";
      remoteDir +:+ "/istio-ca.pem" +:+ ":" +:+ "/var/run/secrets/istio/root-cert.pem";
      "-v";
      remoteDir +:+ "/istio-token" +:+ ":" +:+ "/var/run/secrets/tokens/istio-token";
      "--env-file";
      remoteDir +:+ "/sidecar.env" ] in
  let cmd :=
    fold_left
      (fun cmd host =>
         cmd ++ [ "--add-host";
                  host +:+ ":" +:+ IstioIngressGatewayAddress bundle ])
      (IstioProxyHosts bundle) cmd in
  let cmd := cmd ++ [IstioProxyImage bundle] in
  cmd ++ IstioProxyArgs bundle.

(** [func processBundle(bundle BootstrapBundle, remoteDir string) bootstrapItems] *)
Definition processBundle (bundle : BootstrapBundle) (remoteDir : string)
  : bootstrapItems :=
  let files :=
    [ mkFileToCopy "sidecar.env" remoteDir configFilePerm
                   (IstioProxyEnvironment bundle);
      mkFileToCopy "istio-ca.pem" remoteDir configFilePerm
                   (IstioCaCert bundle);
      mkFileToCopy "istio-token" remoteDir secretFilePerm
                   (ServiceAccountToken bundle) ] in
  let commands :=
    [ mkCmdToExec ("docker rm --force " +:+ IstioProxyContainerName bundle) false;
      mkCmdToExec (Join (launchArgs bundle remoteDir) " ") true ] in
  mkBootstrapItems files commands.

End Bootstrap.

(** * Diff walker *)

Module Revision.

(** A decoded configuration tree ([config.ToMap] output): what the JSON/YAML
    decoder stores in an [interface{}].  A number is the finite [float64]
    the decoder produced, given by its value.  A map is given by its entries
    in the order [range] visits them; indexing finds the entry of a key. *)
Inductive value : Type :=
  | VNil
  | VBool (b : bool)
  | VNumber (x : Qc)
  | VString (s : string)
  | VSlice (v : list value)
  | VMap (v : list (string * value)).

(** [type iopDiff struct { Path string; Value string }] *)
Record iopDiff := mkIopDiff {
  Path : string;
  Value : string;
}.

(** Modelled from the spec: [util.PathSeparator] and
    [util.EscapedPathSeparator] are constants of [operator/pkg/util]; paths
    are dotted, and a separator inside a key is escaped. *)
Definition PathSeparator : string := ".".
Definition EscapedPathSeparator : string := "\.".

(** [strings.ReplaceAll] for a one-character [old]. *)
Fixpoint ReplaceAll1 (s : string) (old : ascii) (new : string) : string :=
  match s with
  | EmptyString => EmptyString
  | String c rest =>
      if Ascii.eqb c old then new +:+ ReplaceAll1 rest old new
      else String c (ReplaceAll1 rest old new)
  end.

(** [func pathComponent(component string) string]; replacing in a string
    without separator leaves it as it is, so the early return is subsumed. *)
Definition pathComponent (component : string) : string :=
  ReplaceAll1 component "." EscapedPathSeparator.

(** [m[key]] on a [map[string]interface{}]: nil when the key is absent. *)
Fixpoint mapIndex (m : list (string * value)) (key : string) : value :=
  match m with
  | [] => VNil
  | (k, x) :: rest => if String.eqb k key then x else mapIndex rest key
  end.

(** [==] on two interface values, the left one of a comparable dynamic type
    (nil, bool, float64 or string): the dynamic types and the values agree. *)
Definition ifaceEq (v orig : value) : bool :=
  match v, orig with
  | VNil, VNil => true
  | VBool a, VBool b => Bool.eqb a b
  | VNumber a, VNumber b => bool_decide (a = b)
  | VString a, VString b => String.eqb a b
  | _, _ => false
  end.

Definition isNil (v : value) : bool :=
  match v with VNil => true | _ => false end.

Section DiffWalk.

(** [fmt.Sprintf] with the verbs [%q] (on a string) and [%v] (on a
    [float64]) is the standard library's. *)
Variable Sprintf_q : string → string.
Variable Sprintf_v_float64 : Qc → string.

(** [fmt.Sprintf("%v", v)] for the values that reach the [default:] case. *)
Definition Sprintf_v (v : value) : string :=
  match v with
  | VNil => "<nil>"
  | VBool true => "true"
  | VBool false => "false"
  | VNumber x => Sprintf_v_float64 x
  | VString _ | VSlice _ | VMap _ => ""   (* handled by the earlier cases *)
  end.

(** [func diffWalk(path, separator string, obj interface{}, orig interface{}) ([]iopDiff, error)] *)
Fixpoint diffWalk (path separator : string) (obj orig : value) {struct obj}
  : outcome (list iopDiff * option string) :=
  match obj with
  | VMap v =>
      let accum := [] in
      match orig with
      | VMap typedOrig =>
          (fix range (kvs : list (string * value)) (accum : list iopDiff)
             {struct kvs} : outcome (list iopDiff * option string) :=
             match kvs with
             | [] => Return (accum, None)
             | (key, vv) :: kvs' =>
                 '(childwalk, err) ←
                   diffWalk (path +:+ separator +:+ pathComponent key) "."
                            vv (mapIndex typedOrig key);
                 match err with
                 | Some e => Return (accum, Some e)
                 | None => range kvs' (accum ++ childwalk)
                 end
             end) v accum
      | _ => Return (accum, None)
      end
  | VSlice v =>
      let accum := [] in
      match orig with
      | VSlice typedOrig =>
          (fix range (idx : nat) (vs : list value) (accum : list iopDiff)
             {struct vs} : outcome (list iopDiff * option string) :=
             match vs with
             | [] => Return (accum, None)
             | vv :: vs' =>
                 match typedOrig !! idx with
                 | None => Panic "index out of range"
                 | Some o =>
                     '(indexwalk, err) ←
                       diffWalk (path +:+ "[" +:+ pretty idx +:+ "]") "." vv o;
                     match err with
                     | Some e => Return (accum, Some e)
                     | None => range (S idx) vs' (accum ++ indexwalk)
                     end
                 end
             end) 0 v accum
      | _ => Return (accum, None)
      end
  | VString v =>
      if negb (ifaceEq obj orig) && negb (isNil orig)
      then Return ([mkIopDiff path (Sprintf_q v)], None)
      else Return ([], None)
  | _ =>
      if negb (ifaceEq obj orig) && negb (isNil orig)
      then Return ([mkIopDiff path (Sprintf_v obj)], None)
      else Return ([], None)
  end.

(** The two [range] loops of [diffWalk], as functions of their own. *)
Section Range.

Variables (path separator : string).

Section RangeMap.

Variable typedOrig : list (string * value).

Fixpoint rangeMap (kvs : list (string * value)) (accum : list iopDiff)
    {struct kvs} : outcome (list iopDiff * option string) :=
  match kvs with
  | [] => Return (accum, None)
  | (key, vv) :: kvs' =>
      '(childwalk, err) ←
        diffWalk (path +:+ separator +:+ pathComponent key) "."
                 vv (mapIndex typedOrig key);
      match err with
      | Some e => Return (accum, Some e)
      | None => rangeMap kvs' (accum ++ childwalk)
      end
  end.

End RangeMap.

Section RangeSlice.

Variable typedOrig : list value.

Fixpoint rangeSlice (idx : nat) (vs : list value) (accum : list iopDiff)
    {struct vs} : outcome (list iopDiff * option string) :=
  match vs with
  | [] => Return (accum, None)
  | vv :: vs' =>
      match typedOrig !! idx with
      | None => Panic "index out of range"
      | Some o =>
          '(indexwalk, err) ←
            diffWalk (path +:+ "[" +:+ pretty idx +:+ "]") "." vv o;
          match err with
          | Some e => Return (accum, Some e)
          | None => rangeSlice (S idx) vs' (accum ++ indexwalk)
          end
      end
  end.

End RangeSlice.

End Range.

End DiffWalk.

(** A Go map holds one entry per key: the keys of every map of the tree are
    pairwise distinct. *)
Fixpoint uniqueKeys (v : value) : bool :=
  match v with
  | VSlice vs =>
      (fix all (vs : list value) : bool :=
         match vs with
         | [] => true
         | x :: vs' => uniqueKeys x && all vs'
         end) vs
  | VMap kvs =>
      (fix all (kvs : list (string * value)) : bool :=
         match kvs with
         | [] => true
         | (k, x) :: kvs' =>
             forallb (fun kv => negb (String.eqb k kv.1)) kvs'
             && uniqueKeys x && all kvs'
         end) kvs
  | _ => true
  end.

(** [fmt.Sprintf("%q", s)] for a string of printable ASCII characters other
    than the quote and the backslash: the string between quotes. *)
Definition quotePlain (s : string) : string :=
  String "034" (s +:+ String "034" EmptyString).

(** A rendering of numbers to instantiate [%v] with: numerator and
    denominator. *)
Definition showRatio (x : Qc) : string :=
  pretty (QArith_base.Qnum (Qcanon.this x)) +:+ "/"
    +:+ pretty (Z.pos (QArith_base.Qden (Qcanon.this x))).

(** A tree with nested non-empty values. *)
Definition deepTree : value :=
  VMap [ ("components",
          VMap [ ("ingressGateways",
                  VSlice [ VMap [ ("name", VString "istio-ingressgateway");
                                  ("enabled", VBool true) ] ]) ]);
         ("hub", VString "docker.io/istio");
         ("replicas", VNumber (Qcanon.Q2Qc (QArith_base.Qmake 2 1))) ].

End Revision.

(** * Validation walker *)

Module Validate.

(** ** Go values as [reflect] sees them *)

(** [reflect.Kind], for the kinds the walker tells apart. *)
Inductive Kind :=
  | Kind_Invalid | Kind_Bool | Kind_Int | Kind_Float64 | Kind_String
  | Kind_Interface | Kind_Map | Kind_Ptr | Kind_Slice | Kind_Struct.

(** [reflect.StructField] as far as the walker reads it: the declared name,
    the [json] key of the tag, whether the field is exported (only then can
    its value be taken out with [Interface()]), and whether the declared
    type is an interface type. *)
Record StructField := mkStructField {
  Name : string;
  Tag_json : option string;
  exported : bool;
  ifaceTyped : bool;
}.

(** A Go value.  [Nil] is the nil interface; a pointer, a map and a slice
    can be nil themselves; map keys are strings, rendered by
    [reflect.Value.String] as themselves; the entries of a map are listed in
    the order [MapKeys] returns them. *)
Inductive value : Type :=
  | Nil
  | VBool (b : bool)
  | VInt (n : Z)
  | VFloat (x : Qc)
  | VString (s : string)
  | Pointer (target : option value)
  | MapOf (entries : option (list (string * value)))
  | SliceOf (elems : option (list value))
  | StructOf (fields : list (StructField * value)).

(** What an [interface{}] parameter receives: a value, or a [reflect.Value]
    (the zero [reflect.Value] is [ReflectValue None]). *)
Inductive iface : Type :=
  | Data (v : value)
  | ReflectValue (rv : option value).

(** [util.Path] *)
Definition Path : Type := list string.

(** [util.Errors].  An error is identified by the statement that builds it:
    the two type-mismatch errors of [Validate], the required-field error of
    [validateLeaf], or an error returned by a validation function. *)
Inductive error : Type :=
  | ErrExpectedPtr (path : Path) (structPtr : value)
  | ErrExpectedStruct (path : Path) (structElems : option value)
  | ErrRequiredNotSet (yamlPath : string)
  | ErrValidation (msg : string).

Definition Errors : Type := list error.

(** [type ValidatorFunc func(path util.Path, i interface{}) util.Errors],
    giving the messages of the errors it returns. *)
Definition ValidatorFunc : Type := Path → iface → list string.

(** Helpers of [operator/pkg/util] and of the rest of package [validate]
    that the walker calls and that are declared outside the modelled
    file. *)
Class Helpers := {
  IsStruct : iface → bool;
  IsPtr : iface → bool;
  IsNilOrInvalidValue : option value → bool;
  IsValueNil : iface → bool;
  IsEmptyString : iface → bool;
  Path_String : Path → string;
  ToYAMLPathString : string → string;
  getValidationFuncForPath :
    gmap string ValidatorFunc → Path → option ValidatorFunc;
  indexPathForSlice : string → nat → string;
}.

(** Modelled from the spec: [util.AppendErrs] is declared in
    [operator/pkg/util]; error aggregation collects all errors of the walk
    and returns them together. *)
Definition AppendErrs (errors in_ : Errors) : Errors := errors ++ in_.

(** [requiredValues] lists all the values that must be non-empty; this is
    the table as the package initialises it.  The functions below take the
    current table as an argument. *)
Definition requiredValues : gmap string bool := ∅.

(** The static kind of a field, [structElems.Type().Field(i).Type.Kind()]. *)
Definition fieldKind (fd : StructField) (fieldValue : value) : Kind :=
  if ifaceTyped fd then Kind_Interface
  else match fieldValue with
       | Nil => Kind_Interface
       | VBool _ => Kind_Bool
       | VInt _ => Kind_Int
       | VFloat _ => Kind_Float64
       | VString _ => Kind_String
       | Pointer _ => Kind_Ptr
       | MapOf _ => Kind_Map
       | SliceOf _ => Kind_Slice
       | StructOf _ => Kind_Struct
       end.

(** [reflect.Value.Interface()] on a field value or on something reached
    through it panics when the field is not exported. *)
Definition Interface (fd : StructField) (v : value) : outcome value :=
  if exported fd then Return v
  else Panic "reflect.Value.Interface: cannot return value obtained from unexported field or method".

Section Walker.

Context `{Helpers}.

(** The table [requiredValues] at the time of the call. *)
Variable required : gmap string bool.

(** [func validateLeaf(validations map[string]ValidatorFunc, path util.Path, val interface{}, checkRequired bool) util.Errors] *)
Definition validateLeaf (validations : gmap string ValidatorFunc)
    (path : Path) (val : iface) (checkRequired : bool) : Errors :=
  let pstr := Path_String path in
  if IsValueNil val || IsEmptyString val then
    if checkRequired && default false (required !! pstr)
    then [ErrRequiredNotSet (ToYAMLPathString pstr)]
    else []
  else
    match getValidationFuncForPath validations path with
    | None => []
    | Some vf => ErrValidation <$> vf path val
    end.

Variable validations : gmap string ValidatorFunc.
Variable checkRequired : bool.

(** [Validate] up to the loop over the fields: the checks on [structPtr]
    and on [structElems := reflect.ValueOf(structPtr).Elem()], which is the
    value pointed to, or the invalid [reflect.Value] for a nil pointer.
    [fields] stands for the loop. *)
Definition Validate_checks (fields : value → Path → outcome Errors)
    (structPtr : value) (path : Path) : outcome Errors :=
  match structPtr with
  | Nil => Return []
  | _ =>
    if IsStruct (Data structPtr) then Return []
    else if negb (IsPtr (Data structPtr)) then
      Return [ErrExpectedPtr path structPtr]
    else
      match structPtr with
      | Pointer structElems =>
          if negb (IsStruct (ReflectValue structElems)) then
            Return [ErrExpectedStruct path structElems]
          else if IsNilOrInvalidValue structElems then Return []
          else
            match structElems with
            | Some elems => fields elems path
            | None =>
                Panic "reflect: call of reflect.Value.NumField on zero Value"
            end
      | _ => Panic "reflect: call of reflect.Value.Elem on non-pointer Value"
      end
  end.

(** The loop over a map's keys in the [reflect.Map] case; the leaf is the
    [reflect.Value] that [MapIndex] returns. *)
Fixpoint validateKeys (newPath : Path) (entries : list (string * value))
    (errs : Errors) : Errors :=
  match entries with
  | [] => errs
  | (key, elem) :: rest =>
      let nnp := newPath ++ [key] in
      validateKeys newPath rest
        (AppendErrs errs
           (validateLeaf validations nnp (ReflectValue (Some elem)) checkRequired))
  end.

Definition MapKeys (fieldValue : value) : list (string * value) :=
  match fieldValue with
  | MapOf (Some entries) => entries
  | _ => []
  end.

(** [reflect.Value.Elem()] on a pointer. *)
Definition Elem (fieldValue : value) : option value :=
  match fieldValue with
  | Pointer target => target
  | _ => None
  end.

Definition isStructValue (v : option value) : bool :=
  match v with
  | Some (StructOf _) => true
  | _ => false
  end.

(** The loop of [Validate] over the fields of [structElems]. *)
Fixpoint Validate_fields (structElems : value) (path : Path)
    {struct structElems} : outcome Errors :=
  match structElems with
  | StructOf fields =>
    (fix fieldLoop (fs : list (StructField * value)) (errs : Errors)
       {struct fs} : outcome Errors :=
       match fs with
       | [] => Return errs
       | (fd, fieldValue) :: fs' =>
         let fieldName := Name fd in
         if bool_decide (Tag_json fd = Some "-") then fieldLoop fs' errs
         else
           match fieldKind fd fieldValue with
           | Kind_Struct =>
               (* fieldValue.Addr().Interface() *)
               _ ← Interface fd fieldValue;
               es ← Validate_checks Validate_fields
                      (Pointer (Some fieldValue)) (path ++ [fieldName]);
               fieldLoop fs' (AppendErrs errs es)
           | Kind_Map =>
               let newPath := path ++ [fieldName] in
               _ ← Interface fd fieldValue;
               let errs :=
                 AppendErrs errs
                   (validateLeaf validations newPath (Data fieldValue)
                                 checkRequired) in
               fieldLoop fs' (validateKeys newPath (MapKeys fieldValue) errs)
           | Kind_Slice =>
               match fieldValue with
               | SliceOf (Some elems) =>
                   errs ←
                     (fix elemLoop (i : nat) (vs : list value) (errs : Errors)
                        {struct vs} : outcome Errors :=
                        match vs with
                        | [] => Return errs
                        | newValue :: vs' =>
                            _ ← Interface fd newValue;
                            let newPath :=
                              path ++ [indexPathForSlice fieldName i] in
                            if IsStruct (Data newValue) || IsPtr (Data newValue)
                            then
                              es ← Validate_checks Validate_fields
                                     newValue newPath;
                              elemLoop (S i) vs' (AppendErrs errs es)
                            else
                              elemLoop (S i) vs'
                                (AppendErrs errs
                                   (validateLeaf validations newPath
                                                 (Data newValue) checkRequired))
                        end) 0 elems errs;
                   fieldLoop fs' errs
               | _ => fieldLoop fs' errs
               end
           | Kind_Ptr =>
               if IsNilOrInvalidValue (Elem fieldValue) then fieldLoop fs' errs
               else
                 let newPath := path ++ [fieldName] in
                 if isStructValue (Elem fieldValue) then
                   _ ← Interface fd fieldValue;
                   es ← Validate_checks Validate_fields fieldValue newPath;
                   fieldLoop fs' (AppendErrs errs es)
                 else
                   fieldLoop fs'
                     (AppendErrs errs
                        (validateLeaf validations newPath
                                      (ReflectValue (Some fieldValue))
                                      checkRequired))
           | _ =>
               if exported fd (* CanInterface() *) then
                 fieldLoop fs'
                   (AppendErrs errs
                      (validateLeaf validations (path ++ [fieldName])
                                    (Data fieldValue) checkRequired))
               else fieldLoop fs' errs
           end
       end) fields []
  | _ => Panic "reflect: call of reflect.Value.NumField on non-struct Value"
  end.

(** The loops of [Validate_fields], as functions of their own: over the
    elements of a slice field, and over the fields. *)
Section Loops.

Variable path : Path.

Section ElemLoop.

Variable fd : StructField.

Fixpoint elemLoop (i : nat) (vs : list value) (errs : Errors) {struct vs}
  : outcome Errors :=
  match vs with
  | [] => Return errs
  | newValue :: vs' =>
      _ ← Interface fd newValue;
      let newPath := path ++ [indexPathForSlice (Name fd) i] in
      if IsStruct (Data newValue) || IsPtr (Data newValue)
      then
        es ← Validate_checks Validate_fields newValue newPath;
        elemLoop (S i) vs' (AppendErrs errs es)
      else
        elemLoop (S i) vs'
          (AppendErrs errs
             (validateLeaf validations newPath (Data newValue) checkRequired))
  end.

End ElemLoop.

Fixpoint fieldLoop (fs : list (StructField * value)) (errs : Errors)
    {struct fs} : outcome Errors :=
  match fs with
  | [] => Return errs
  | (fd, fieldValue) :: fs' =>
    let fieldName := Name fd in
    if bool_decide (Tag_json fd = Some "-") then fieldLoop fs' errs
    else
      match fieldKind fd fieldValue with
      | Kind_Struct =>
          _ ← Interface fd fieldValue;
          es ← Validate_checks Validate_fields
                 (Pointer (Some fieldValue)) (path ++ [fieldName]);
          fieldLoop fs' (AppendErrs errs es)
      | Kind_Map =>
          let newPath := path ++ [fieldName] in
          _ ← Interface fd fieldValue;
          let errs :=
            AppendErrs errs
              (validateLeaf validations newPath (Data fieldValue)
                            checkRequired) in
          fieldLoop fs' (validateKeys newPath (MapKeys fieldValue) errs)
      | Kind_Slice =>
          match fieldValue with
          | SliceOf (Some elems) =>
              errs ← elemLoop fd 0 elems errs;
              fieldLoop fs' errs
          | _ => fieldLoop fs' errs
          end
      | Kind_Ptr =>
          if IsNilOrInvalidValue (Elem fieldValue) then fieldLoop fs' errs
          else
            let newPath := path ++ [fieldName] in
            if isStructValue (Elem fieldValue) then
              _ ← Interface fd fieldValue;
              es ← Validate_checks Validate_fields fieldValue newPath;
              fieldLoop fs' (AppendErrs errs es)
            else
              fieldLoop fs'
                (AppendErrs errs
                   (validateLeaf validations newPath
                                 (ReflectValue (Some fieldValue))
                                 checkRequired))
      | _ =>
          if exported fd then
            fieldLoop fs'
              (AppendErrs errs
                 (validateLeaf validations (path ++ [fieldName])
                               (Data fieldValue) checkRequired))
          else fieldLoop fs' errs
      end
  end.

End Loops.

(** [func Validate(validations map[string]ValidatorFunc, structPtr interface{}, path util.Path, checkRequired bool) (errs util.Errors)] *)
Definition Validate (structPtr : value) (path : Path) : outcome Errors :=
  Validate_checks Validate_fields structPtr path.

End Walker.

(** The error built by the required-field branch of [validateLeaf]. *)
Definition isRequiredNotSet (e : error) : bool :=
  match e with
  | ErrRequiredNotSet _ => true
  | _ => false
  end.

(** The two type-mismatch errors of the entry of [Validate]. *)
Definition isTypeMismatch (e : error) : bool :=
  match e with
  | ErrExpectedPtr _ _ | ErrExpectedStruct _ _ => true
  | _ => false
  end.

(** No error of a call comes from the required-field branch. *)
Definition noRequired (o : outcome Errors) : Prop :=
  match o with
  | Return errs => Forall (fun e => isRequiredNotSet e = false) errs
  | Panic _ => True
  end.

(** A reference to a struct: a non-nil pointer whose pointee is a struct. *)
Definition isStructPtr (v : value) : bool :=
  match v with
  | Pointer (Some (StructOf _)) => true
  | _ => false
  end.

Section Operator.

Context `{Helpers}.

(** The validation functions named in [DefaultValidations]; they rest on
    regular expressions, YAML marshalling and the mesh configuration
    checks of other packages. *)
Variable CheckValues : iface → list string.
Variables validateMeshConfig validateHub validateTag : ValidatorFunc.
Variables validateAddonComponents validateGatewayName : ValidatorFunc.

(** [DefaultValidations] maps a data path to a validation function. *)
Definition DefaultValidations : gmap string ValidatorFunc :=
  <["Values" := fun path i => CheckValues i]>
  (<["MeshConfig" := validateMeshConfig]>
  (<["Hub" := validateHub]>
  (<["Tag" := validateTag]>
  (<["AddonComponents" := validateAddonComponents]>
  (<["Components.IngressGateways[*].Name" := validateGatewayName]>
  (<["Components.EgressGateways[*].Name" := validateGatewayName]> ∅)))))).

(** [func CheckIstioOperatorSpec(is *v1alpha1.IstioOperatorSpec, checkRequiredFields bool) (errs util.Errors)];
    the argument is nil or points to a struct, given by its fields. *)
Definition CheckIstioOperatorSpec (required : gmap string bool)
    (spec : option (list (StructField * value))) (checkRequiredFields : bool)
  : outcome Errors :=
  match spec with
  | None => Return []
  | Some fields =>
      es ← Validate required DefaultValidations checkRequiredFields
             (Pointer (Some (StructOf fields))) [];
      Return (AppendErrs [] es)
  end.

End Operator.

(** ** A reading of the helpers *)

(** The value an interface argument holds, looking through a
    [reflect.Value]. *)
Definition held (i : iface) : option value :=
  match i with
  | Data v => Some v
  | ReflectValue rv => rv
  end.

Definition isNilValue (v : value) : bool :=
  match v with
  | Nil | Pointer None | MapOf None | SliceOf None => true
  | _ => false
  end.

(** The pattern of a path element: an index in brackets becomes [[*]]. *)
Definition wildcard (elem : string) : string :=
  match String.index 0 "[" elem with
  | Some n => String.substring 0 n elem +:+ "[*]"
  | None => elem
  end.

(** Modelled from the spec: the helpers of [operator/pkg/util]
    ([IsStruct], [IsPtr], [IsNilOrInvalidValue], [IsValueNil],
    [IsEmptyString], [Path.String], [ToYAMLPathString]) and of package
    [validate] ([getValidationFuncForPath], [indexPathForSlice]) are
    missing from the modelled files.  A value is struct-like or a reference
    by its shape, a [reflect.Value] being judged by what it holds; a value
    is empty/absent when it is nil or the empty string; a path is rendered
    dotted, with [field[index]] for sequence elements; a rule is found by
    the exact path first, then by the wildcard pattern. *)
#[global] Instance specHelpers : Helpers := {
  IsStruct i := match held i with Some (StructOf _) => true | _ => false end;
  IsPtr i := match held i with Some (Pointer _) => true | _ => false end;
  IsNilOrInvalidValue rv :=
    match rv with None => true | Some v => isNilValue v end;
  IsValueNil i := match held i with None => true | Some v => isNilValue v end;
  IsEmptyString i :=
    match held i with
    | Some Nil | Some (VString "") => true
    | _ => false
    end;
  Path_String p := Join p ".";
  ToYAMLPathString pstr := pstr;
  getValidationFuncForPath validations p :=
    match validations !! Join p "." with
    | Some vf => Some vf
    | None => validations !! Join (wildcard <$> p) "."
    end;
  indexPathForSlice name i := name +:+ "[" +:+ pretty i +:+ "]";
}.

End Validate.

(** * Sample inputs *)

Module Samples.

Import Pilot Bootstrap.

(** A status row of a control plane that only fills the per-type form:
    the cluster type is sent and acknowledged with the same nonce, the
    legacy singular fields are empty. *)
Definition genericOnlyRow (GetShortType : string → string) : writerStatus :=
  mkWriterStatus "istiod-0"
    (mkSyncStatus "sleep.default" "1.9.0" "1.9.0"
                  "" "" "" "" "" "" "" ""
                  {[ GetShortType "CDS" := mkXdsStatus "n1" "n1" ]}).

Definition bytesOf (s : string) : list byte := String.list_byte_of_string s.

(** A discovery response carrying two resources of a type other than
    ClientConfig. *)
Definition otherTypeUrl : string :=
  "type.googleapis.com/envoy.config.cluster.v3.Cluster".

Definition twoRawResources : DiscoveryResponse :=
  mkDiscoveryResponse
    [mkAny otherTypeUrl (bytesOf "a"); mkAny otherTypeUrl (bytesOf "b")]
    "istiod-0".

(** The bundle of the unit test [TestVmBootstrap_ProcessBundle]. *)
Definition testBundle : BootstrapBundle :=
  mkBootstrapBundle
    (bytesOf "Istio CA certs") "1.2.3.4"
    (bytesOf "k8s SA token")
    "istio-proxy" "proxyv2:latest"
    (bytesOf "KEY=VALUE")
    ["proxy"; "sidecar"]
    ["istiod.istio-system.svc"; "zipkin.istio-monitoring.svc"].

(** Whether the argument list mounts [src] as a volume: a [-v] flag
    followed by a mapping that starts with [src:]. *)
Fixpoint hasVolumeMount (args : list string) (src : string) : bool :=
  match args with
  | flag :: rest =>
      match rest with
      | arg :: _ =>
          (String.eqb flag "-v" && String.prefix (src +:+ ":") arg)
          || hasVolumeMount rest src
      | [] => false
      end
  | [] => false
  end.

(** The fixed head of the launch command. *)
Definition launchHead (bundle : BootstrapBundle) (remoteDir : string)
  : list string :=
  [ "docker"; "run"; "-d";
    "--name"; IstioProxyContainerName bundle;
    "--restart"; "unless-stopped";
    "--network"; "host";
    "-v";
    remoteDir +:+ "/istio-ca.pem:/var/run/secrets/istio/root-cert.pem";
    "-v";
    remoteDir +:+ "/istio-token:/var/run/secrets/tokens/istio-token";
    "--env-file";
    remoteDir +:+ "/sidecar.env" ].

(** One [--add-host] flag for a host alias. *)
Definition addHost (bundle : BootstrapBundle) (host : string) : list string :=
  ["--add-host"; host +:+ ":" +:+ IstioIngressGatewayAddress bundle].

End Samples.

(** * Revision report helpers *)

Module Report.

Import Revision.

Local Open Scope nat_scope.

(** [func renderWithDefault(s, def string) string] *)
Definition renderWithDefault (s def : string) : string :=
  if negb (String.eqb s "") then s else "<" +:+ def +:+ ">".

(** [func effectiveProfile(profile string) string] *)
Definition effectiveProfile (profile : string) : string :=
  if negb (String.eqb profile "") then profile else "default".

(** [func max(x, y int) int], on the lengths it is applied to. *)
Definition max (x y : nat) : nat := if y <? x then x else y.

(** [admit_v1.MutatingWebhookConfiguration], as far as it is read: the name
    and the labels. *)
Record MutatingWebhookConfiguration := mkWebhook {
  wh_Name : string;
  wh_Labels : gmap string string;
}.

(** [m[key]] on a [map[string]string]: the empty string when absent. *)
Definition label (m : gmap string string) (key : string) : string :=
  default "" (m !! key).

(** [iopv1alpha1.IstioOperator], as far as it is read; [Spec] is a pointer. *)
Record IstioOperatorSpec := mkIstioOperatorSpec {
  spec_Revision : string;
  spec_Profile : string;
}.

Record IstioOperator := mkIstioOperator {
  iop_Namespace : string;
  iop_Name : string;
  iop_Spec : option IstioOperatorSpec;
}.

Record istioOperatorCRInfo := mkCRInfo {
  cr_Namespace : string;
  cr_Name : string;
  cr_Profile : string;
  cr_Components : list string;
  cr_Customizations : list iopDiff;
}.

Record mutatingWebhookConfigInfo := mkWebhookInfo {
  whi_Name : string;
  whi_Revision : string;
  whi_Tag : string;
}.

(** [revisionDescription], without the pod lists and the namespace
    summary, which the functions below do not read. *)
Record revisionDescription := mkRevisionDescription {
  IstioOperatorCRs : list istioOperatorCRInfo;
  Webhooks : list mutatingWebhookConfigInfo;
}.

Definition istioTag : string := "istio.io/tag".

Section Labels.

(** [label.IstioRev] is a constant of the [istio.io/api/label] package. *)
Variable IstioRev : string.

(** [func getWebhooksWithRevision(webhooks, revision)] *)
Definition getWebhooksWithRevision (webhooks : list MutatingWebhookConfiguration)
    (revision : string) : list MutatingWebhookConfiguration :=
  fold_left
    (fun whFiltered wh =>
       if String.eqb (label (wh_Labels wh) IstioRev) revision
       then whFiltered ++ [wh] else whFiltered)
    webhooks [].

(** The loop of [revisionList] over the webhooks: its body, and the loop,
    which yields the revisions found, each with the webhooks recorded for
    it. *)
Definition recordWebhook (revisions : gmap string revisionDescription)
    (hook : MutatingWebhookConfiguration) : gmap string revisionDescription :=
  let rev := renderWithDefault (label (wh_Labels hook) IstioRev) "default" in
  let tag := label (wh_Labels hook) istioTag in
  match revisions !! rev with
  | Some ri =>
      if negb (String.eqb tag "") then
        <[rev := mkRevisionDescription
                   (IstioOperatorCRs ri)
                   (Webhooks ri ++ [mkWebhookInfo (wh_Name hook) rev tag])]>
          revisions
      else revisions
  | None =>
      <[rev := mkRevisionDescription
                 [] [mkWebhookInfo (wh_Name hook) rev tag]]> revisions
  end.

Definition groupWebhooks (webhooks : list MutatingWebhookConfiguration)
  : gmap string revisionDescription :=
  fold_left recordWebhook webhooks ∅.

End Labels.

(** [func getIOPWithRevision(iops []*iopv1alpha1.IstioOperator, revision string)];
    an element of the slice is a pointer, dereferenced without a nil
    check. *)
Fixpoint getIOPWithRevision_loop (iops : list (option IstioOperator))
    (revision : string) (filteredIOPs : list IstioOperator)
  : outcome (list IstioOperator) :=
  match iops with
  | [] => Return filteredIOPs
  | None :: _ => Panic "invalid memory address or nil pointer dereference"
  | Some iop :: rest =>
      match iop_Spec iop with
      | None => getIOPWithRevision_loop rest revision filteredIOPs
      | Some spec =>
          if String.eqb (spec_Revision spec) revision
             || (String.eqb revision "default"
                 && (String.length (spec_Revision spec) =? 0))
          then getIOPWithRevision_loop rest revision (filteredIOPs ++ [iop])
          else getIOPWithRevision_loop rest revision filteredIOPs
      end
  end.

Definition getIOPWithRevision (iops : list (option IstioOperator))
    (revision : string) : outcome (list IstioOperator) :=
  getIOPWithRevision_loop iops revision [].

(** The loop of [revisionList] over the operator CRs.  The generated
    getters [GetRevision] and [GetProfile] answer the empty string on a nil
    [Spec]; [getEnabledComponents] reads through pointers of the spec and
    [getDiffs] renders the profile before it calls the diff walker, so both
    are taken as given; either can panic. *)
Section AttachIOPs.

Variable getEnabledComponents : option IstioOperatorSpec → outcome (list string).
Variable getDiffs :
  IstioOperator → string → outcome (list iopDiff * option string).

Definition GetRevision (spec : option IstioOperatorSpec) : string :=
  from_option spec_Revision "" spec.

Definition GetProfile (spec : option IstioOperatorSpec) : string :=
  from_option spec_Profile "" spec.

Fixpoint attachIOPs (verbose : bool) (iopcrs : list (option IstioOperator))
    (revisions : gmap string revisionDescription)
  : outcome (gmap string revisionDescription + string) :=
  match iopcrs with
  | [] => Return (inl revisions)
  | None :: rest => attachIOPs verbose rest revisions
  | Some iop :: rest =>
      let rev := renderWithDefault (GetRevision (iop_Spec iop)) "default" in
      match revisions !! rev with
      | Some ri =>
          components ← getEnabledComponents (iop_Spec iop);
          let iopInfo customizations :=
            mkCRInfo (iop_Namespace iop) (iop_Name iop)
                     (GetProfile (iop_Spec iop)) components customizations in
          let attach iopInfo :=
            attachIOPs verbose rest
              (<[rev := mkRevisionDescription
                          (IstioOperatorCRs ri ++ [iopInfo]) (Webhooks ri)]>
                 revisions) in
          if verbose then
            diffs ← getDiffs iop (GetProfile (iop_Spec iop));
            match diffs with
            | (_, Some err) =>
                Return (inr ("error while finding customizations: " +:+ err))
            | (customizations, None) => attach (iopInfo customizations)
            end
          else attach (iopInfo [])
      | None => attachIOPs verbose rest revisions
      end
  end.

End AttachIOPs.

(** ** [printRevisionInfoTable]

    The table writer is represented by the rows handed to it, a row by its
    tab-separated cells. *)
Definition row : Type := list string.

(** [s[i]] under the guard [i < len(s)], the empty string otherwise. *)
Definition cellAt (s : list string) (i : nat) : string :=
  if i <? length s then default "" (s !! i) else "".

(** One row of an operator CR: the body of the loop [for i < maxIopRows];
    the state is the rows written so far and [rowId]. *)
Definition iopRow (verbose : bool) (r : string) (tags : list string)
    (qualifiedName profile : string) (components customizations : list string)
    (st : list row * nat) (i : nat) : list row * nat :=
  let '(rows, rowId) := st in
  let rowIopName := if i =? 0 then qualifiedName else "" in
  let rowProfile := if i =? 0 then profile else "" in
  let rowComp := cellAt components i in
  let rowCust := cellAt customizations i in
  let rowTag := cellAt tags rowId in
  let rowRev := if rowId =? 0 then r else "" in
  let line :=
    if verbose
    then [rowRev; rowTag; rowIopName; rowProfile; rowComp; rowCust]
    else [rowRev; rowTag; rowIopName; rowProfile; rowComp] in
  (rows ++ [line], S rowId).

(** The rows of one operator CR: the body of the loop over
    [ri.IstioOperatorCRs]. *)
Definition iopRows (verbose : bool) (r : string) (tags : list string)
    (st : list row * nat) (iop : istioOperatorCRInfo) : list row * nat :=
  let profile := effectiveProfile (cr_Profile iop) in
  let components := cr_Components iop in
  let qualifiedName := cr_Namespace iop +:+ "/" +:+ cr_Name iop in
  let customizations :=
    fold_left (fun customizations c =>
                 customizations ++ [Path c +:+ "=" +:+ Value c])
              (cr_Customizations iop) [] in
  let customizations :=
    if length customizations =? 0 then customizations ++ ["<no-customization>"]
    else customizations in
  let maxIopRows := max (max 1 (length components)) (length customizations) in
  fold_left
    (iopRow verbose r tags qualifiedName profile components customizations)
    (seq 0 maxIopRows) st.

(** The loop [for rowId < len(tags)] that prints the remaining tags: its
    body, and the loop, which runs the body [len(tags) - rowId] times. *)
Definition tagRow (verbose : bool) (r : string) (tags : list string)
    (st : list row * nat) : list row * nat :=
  let '(rows, rowId) := st in
  let rowRev := if rowId =? 0 then r else "" in
  let rowIopName := if rowId =? 0 then "<no-iop>" else "" in
  let rowTag := default "" (tags !! rowId) in
  let line :=
    if verbose
    then [rowRev; rowTag; rowIopName; " "; " "; " "]
    else [rowRev; rowTag; rowIopName; " "; " "] in
  (rows ++ [line], S rowId).

Definition tagRows (verbose : bool) (r : string) (tags : list string)
    (st : list row * nat) : list row * nat :=
  Nat.iter (length tags - snd st) (tagRow verbose r tags) st.

(** The rows of one revision: the body of the loop over [revisions]. *)
Definition revisionRows (verbose : bool) (rows : list row) (r : string)
    (ri : revisionDescription) : list row :=
  let tags := fold_left (fun tags wh => tags ++ [whi_Tag wh]) (Webhooks ri) [] in
  let tags := if length tags =? 0 then tags ++ ["<no-tag>"] else tags in
  let st := fold_left (iopRows verbose r tags) (IstioOperatorCRs ri) (rows, 0) in
  fst (tagRows verbose r tags st).

Definition tableHeader (verbose : bool) : row :=
  if verbose
  then ["REVISION"; "TAG"; "ISTIO-OPERATOR-CR"; "PROFILE"; "REQD-COMPONENTS";
        "CUSTOMIZATIONS"]
  else ["REVISION"; "TAG"; "ISTIO-OPERATOR-CR"; "PROFILE"; "REQD-COMPONENTS"].

(** [func printRevisionInfoTable(writer io.Writer, verbose bool, revisions map[string]*revisionDescription) error]:
    the rows handed to the table writer before it is flushed; the map is
    given by its entries in the order [range] visits them. *)
Definition printRevisionInfoTable (verbose : bool)
    (revisions : list (string * revisionDescription)) : list row :=
  fold_left (fun rows '(r, ri) => revisionRows verbose rows r ri)
            revisions [tableHeader verbose].

(** The tags shown for a revision. *)
Definition shownTags (ri : revisionDescription) : list string :=
  match Webhooks ri with
  | [] => ["<no-tag>"]
  | whs => whi_Tag <$> whs
  end.

(** The number of rows an operator CR takes. *)
Definition crHeight (iop : istioOperatorCRInfo) : nat :=
  Nat.max (Nat.max 1 (length (cr_Components iop)))
          (length (cr_Customizations iop)).

(** The number of rows a revision takes. *)
Definition revisionHeight (ri : revisionDescription) : nat :=
  Nat.max (length (shownTags ri))
          (sum_list (crHeight <$> IstioOperatorCRs ri)).

(** The revision and the tag cell of a row, and what they are to be in the
    [j]-th row of a revision. *)
Definition leadCells (line : row) : string * string :=
  (default "" (line !! 0), default "" (line !! 1)).

Definition expectedLead (r : string) (tags : list string) (j : nat)
  : string * string :=
  (if j =? 0 then r else "", cellAt tags j).

(** [strings.Contains] for a one-character substring. *)
Fixpoint Contains1 (s : string) (c : ascii) : bool :=
  match s with
  | EmptyString => false
  | String d rest => Ascii.eqb d c || Contains1 rest c
  end.

(** ** More on [diffWalk] *)

(** The baseline has an element at every index of every sequence of the
    current tree that is compared with a baseline sequence. *)
Section Covers.

Variable covers : value → value → bool.

Fixpoint coversMap (typedOrig : list (string * value))
    (kvs : list (string * value)) : bool :=
  match kvs with
  | [] => true
  | (key, vv) :: kvs' =>
      covers vv (mapIndex typedOrig key) && coversMap typedOrig kvs'
  end.

Fixpoint coversSlice (vs typedOrig : list value) : bool :=
  match vs with
  | [] => true
  | vv :: vs' =>
      match typedOrig with
      | [] => false
      | o :: os => covers vv o && coversSlice vs' os
      end
  end.

End Covers.

Fixpoint covers (obj orig : value) {struct obj} : bool :=
  match obj, orig with
  | VMap v, VMap typedOrig =>
      (fix all (kvs : list (string * value)) : bool :=
         match kvs with
         | [] => true
         | (key, vv) :: kvs' => covers vv (mapIndex typedOrig key) && all kvs'
         end) v
  | VSlice v, VSlice typedOrig =>
      (fix all (vs typedOrig : list value) : bool :=
         match vs with
         | [] => true
         | vv :: vs' =>
             match typedOrig with
             | [] => false
             | o :: os => covers vv o && all vs' os
             end
         end) v typedOrig
  | _, _ => true
  end.

(** The number of scalar leaves of a tree. *)
Fixpoint leaves (v : value) : nat :=
  match v with
  | VSlice vs =>
      (fix sum (vs : list value) : nat :=
         match vs with
         | [] => 0
         | x :: vs' => leaves x + sum vs'
         end) vs
  | VMap kvs =>
      (fix sum (kvs : list (string * value)) : nat :=
         match kvs with
         | [] => 0
         | (_, x) :: kvs' => leaves x + sum kvs'
         end) kvs
  | _ => 1
  end.

(** What a call of the walker amounts to, given whether the baseline
    covers the current tree. *)
Definition settled (r : outcome (list iopDiff * option string)) (c : bool)
  : Prop :=
  match r with
  | Return (_, err) => err = None ∧ c = true
  | Panic _ => c = false
  end.

(** The records all lie under [path], and there are at most [n] more of
    them than in [accum]. *)
Definition under (path : string) (n : nat) (accum : list iopDiff)
    (r : outcome (list iopDiff * option string)) : Prop :=
  match r with
  | Return (ds, _) =>
      ∃ new, ds = accum ++ new
             ∧ Forall (fun d => String.prefix path (Path d) = true) new
             ∧ length new ≤ n
  | Panic _ => True
  end.

(** A baseline for [deepTree] with another hub, another replica count and
    another gateway name. *)
Definition baselineTree : value :=
  VMap [ ("components",
          VMap [ ("ingressGateways",
                  VSlice [ VMap [ ("name", VString "gateway");
                                  ("enabled", VBool true) ] ]) ]);
         ("hub", VString "gcr.io/istio");
         ("replicas", VNumber (Qcanon.Q2Qc (QArith_base.Qmake 1 1))) ].

Definition deepTreeRecords : list iopDiff :=
  [ mkIopDiff "spec.components.ingressGateways[0].name"
              (quotePlain "istio-ingressgateway");
    mkIopDiff "spec.hub" (quotePlain "docker.io/istio");
    mkIopDiff "spec.replicas" "2/1" ].

Definition taggedWebhook (name rev tag : string) : MutatingWebhookConfiguration :=
  mkWebhook name (<["istio.io/rev" := rev]> (<[istioTag := tag]> ∅)).

Definition bareWebhook (name : string) : MutatingWebhookConfiguration :=
  mkWebhook name ∅.

Definition sampleWebhooks : list MutatingWebhookConfiguration :=
  [ taggedWebhook "istio-sidecar-injector-1-9" "1-9" "";
    bareWebhook "istio-sidecar-injector";
    taggedWebhook "istio-revision-tag-prod" "1-9" "prod" ].

Definition installed19 : IstioOperator :=
  mkIstioOperator "istio-system" "installed-state-1-9"
    (Some (mkIstioOperatorSpec "1-9" "demo")).

Definition installedBare : IstioOperator :=
  mkIstioOperator "istio-system" "installed-state" None.

Definition installed110 : IstioOperator :=
  mkIstioOperator "istio-system" "installed-state-1-10"
    (Some (mkIstioOperatorSpec "1-10" "")).

Definition sampleOperators : list (option IstioOperator) :=
  [ None; Some installed19; Some installedBare; Some installed110 ].

Definition sampleRevisions : gmap string revisionDescription :=
  groupWebhooks "istio.io/rev" sampleWebhooks.

Definition recorded19 : revisionDescription :=
  mkRevisionDescription
    []
    [ mkWebhookInfo "istio-sidecar-injector-1-9" "1-9" "";
      mkWebhookInfo "istio-revision-tag-prod" "1-9" "prod" ].

Definition attached19 : revisionDescription :=
  mkRevisionDescription
    [ mkCRInfo "istio-system" "installed-state-1-9" "demo" ["base"; "istiod"]
               deepTreeRecords ]
    (Webhooks recorded19).

Definition sampleComponents (spec : option IstioOperatorSpec)
  : outcome (list string) :=
  match spec with
  | Some _ => Return ["base"; "istiod"]
  | None => Panic "invalid memory address or nil pointer dereference"
  end.

Definition sampleDiffs (iop : IstioOperator) (profile : string)
  : outcome (list iopDiff * option string) :=
  Return (deepTreeRecords, None).

End Report.

(** * Sidecar bootstrap: addresses, identities and delivery *)

Module Onboarding.

Import Bootstrap.

(** A Go [error], by its message; [fmt.Errorf] with [%w] puts the message
    of the wrapped error in place. *)
Definition error : Type := string.

(** ** The address of the ingress gateway *)

(** [corev1.LoadBalancerIngress] and [corev1.Service], as far as they are
    read. *)
Record LoadBalancerIngress := mkLoadBalancerIngress {
  Hostname : string;
  IP : string;
}.

Record Service := mkService {
  svc_Namespace : string;
  svc_Name : string;
  Ports : list Z;                       (* [svc.Spec.Ports[i].Port] *)
  Ingress : list LoadBalancerIngress;   (* [svc.Status.LoadBalancer.Ingress] *)
}.

(** A gateway of a mesh network, by what its getters answer. *)
Record Gateway := mkGateway {
  GetRegistryServiceName : string;
  GetAddress : string;
}.

Definition meshExpansionPorts : list (Z * string) :=
  [ (15443%Z, "TLS AUTO_PASSTHROUGH") ].

Section Gateway.

(** [bootstrapUtil.ResourceURI] and [bootstrapBundle.SplitServiceAndNamespace]
    are functions of other packages. *)
Variable resourceURI : string → string → string → string → string.
Variable SplitServiceAndNamespace : string → string → string * string.

(** [kubeClient.CoreV1().Services(namespace).Get(..., service, ...)] *)
Variable ServicesGet : string → string → Service + error.

(** [func getIstioIngressGatewayService(kubeClient, namespace, service)] *)
Definition getIstioIngressGatewayService (namespace service : string)
  : Service + error :=
  match ServicesGet namespace service with
  | inr err =>
      inr ("failed to get Service "
           +:+ resourceURI "v1" "services" namespace service +:+ ": " +:+ err)
  | inl svc => inl svc
  end.

(** [func verifyMeshExpansionPorts(svc *corev1.Service) error] *)
Definition verifyMeshExpansionPorts (svc : Service) : option error :=
  let actualPorts : gmap Z bool :=
    fold_left (fun actualPorts port => <[port := true]> actualPorts)
              (Ports svc) ∅ in
  (fix range (expecteds : list (Z * string)) : option error :=
     match expecteds with
     | [] => None
     | (port, description) :: rest =>
         if negb (default false (actualPorts !! port)) then
           Some ("mesh expansion is not possible because Istio Ingress Gateway Service "
                 +:+ resourceURI "v1" "services" (svc_Namespace svc) (svc_Name svc)
                 +:+ " is missing a port '" +:+ pretty port
                 +:+ " (" +:+ description +:+ ")'")
         else range rest
     end) meshExpansionPorts.

(** [func getLoadBalancerAddress(svc *corev1.Service) (string, error)] *)
Definition getLoadBalancerAddress (svc : Service) : string * option error :=
  if (length (Ingress svc) =? 0)%nat then
    ("", Some ("k8s Service "
               +:+ resourceURI "v1" "services" (svc_Namespace svc) (svc_Name svc)
               +:+ " has no ingress points"))
  else
    match find (fun endpoint => negb (String.eqb (Hostname endpoint) ""))
               (Ingress svc) with
    | Some endpoint => (Hostname endpoint, None)
    | None =>
        match find (fun endpoint => negb (String.eqb (IP endpoint) ""))
                   (Ingress svc) with
        | Some endpoint => (IP endpoint, None)
        | None =>
            ("", Some ("k8s Service "
                       +:+ resourceURI "v1" "services"
                             (svc_Namespace svc) (svc_Name svc)
                       +:+ " has no valid ingress points"))
        end
    end.

(** The loop of [getIstioIngressGatewayAddress] over the gateways of the
    network, on service name, namespace, source and address: its body and
    the loop. *)
Definition scanGateway (st : string * string * string * string)
    (gateway : Gateway) : string * string * string * string :=
  let '(name, namespace, source, address) := st in
  let '(name, namespace, source) :=
    if negb (String.eqb (GetRegistryServiceName gateway) "")
       && String.eqb name ""
    then
      let '(n, ns) :=
        SplitServiceAndNamespace (GetRegistryServiceName gateway) "" in
      (n, ns, "MeshNetworks")
    else (name, namespace, source) in
  let address :=
    if negb (String.eqb (GetAddress gateway) "") && String.eqb address ""
    then GetAddress gateway else address in
  (name, namespace, source, address).

Definition scanGateways (gateways : list Gateway)
  : string * string * string * string :=
  fold_left scanGateway gateways ("", "", "", "").

(** [func getIstioIngressGatewayAddress(kubeClient, istioNamespace, meshConfig, meshNetworksConfig, istioConfigValues) (string, error)];
    [network] is the entry of the configured network in the mesh networks
    (its gateways, or nil), [ingressService] what
    [meshConfig.GetIngressService()] answers. *)
Definition getIstioIngressGatewayAddress (istioNamespace : string)
    (ingressService : string) (network : option (list Gateway))
  : string * option error :=
  let '(istioGatewayServiceName, istioGatewayServiceNamespace,
        istioGatewayServiceSource, istioGatewayAddress) :=
    match network with
    | Some gateways => scanGateways gateways
    | None => ("", "", "", "")
    end in
  let '(istioGatewayServiceName, istioGatewayServiceNamespace,
        istioGatewayServiceSource) :=
    if String.eqb istioGatewayServiceName ""
       && String.eqb istioGatewayAddress ""
    then
      if negb (String.eqb ingressService "")
      then (ingressService, istioNamespace, "MeshConfig.IngressService")
      else ("istio-ingressgateway", istioNamespace, "default")
    else (istioGatewayServiceName, istioGatewayServiceNamespace,
          istioGatewayServiceSource) in
  let finish (istioGatewayAddress : string) : string * option error :=
    if String.eqb istioGatewayAddress "" then
      ("", Some ("unable to infer address of the Istio Ingress Gateway neither from MeshNetworks, nor from MeshConfig,"
                 +:+ " nor from default settings"))
    else (istioGatewayAddress, None) in
  if negb (String.eqb istioGatewayServiceName "") then
    match getIstioIngressGatewayService istioGatewayServiceNamespace
                                        istioGatewayServiceName with
    | inr err =>
        ("", Some ("unable to find Istio Ingress Gateway inferred from "
                   +:+ istioGatewayServiceSource +:+ " settings: " +:+ err))
    | inl ingressSvc =>
        match verifyMeshExpansionPorts ingressSvc with
        | Some err =>
            ("", Some ("it appears that Istio Ingress Gateway inferred from "
                       +:+ istioGatewayServiceSource
                       +:+ " settings is not configured for mesh expansion: "
                       +:+ err))
        | None =>
            match getLoadBalancerAddress ingressSvc with
            | (_, Some err) =>
                ("", Some ("unable to determine address of the Istio Ingress Gateway inferred from "
                           +:+ istioGatewayServiceSource +:+ " settings: "
                           +:+ err))
            | (istioGatewayAddress, None) => finish istioGatewayAddress
            end
        end
    end
  else finish istioGatewayAddress.

End Gateway.

(** A gateway with its address blanked. *)
Definition withoutAddress (gateway : Gateway) : Gateway :=
  mkGateway (GetRegistryServiceName gateway) "".

(** ** One token per service account *)

(** [networking.WorkloadEntry], as far as it is read. *)
Record WorkloadEntry := mkWorkloadEntry {
  we_Namespace : string;
  we_Name : string;
  ServiceAccount : string;   (* [Spec.ServiceAccount] *)
}.

(** [type workloadIdentity struct { ServiceAccountToken []byte }] *)
Record workloadIdentity := mkWorkloadIdentity {
  id_ServiceAccountToken : list byte;
}.

Section Identity.

Variable resourceURI : string → string → string → string → string.

(** [kubeClient.CoreV1().ServiceAccounts(namespace).CreateToken(..., name, ...)]:
    the token of the response, or an error; the answer may depend on the
    requests made before, given as (namespace, name) pairs. *)
Variable CreateToken :
  list (string * string) → string → string → string + error.

(** [func getIdentityForEachWorkload(kubeClient, workloadEntries) (map[string]workloadIdentity, error)],
    with the token requests made. *)
Fixpoint getIdentityForEachWorkload_loop (workloadEntries : list WorkloadEntry)
    (seenServiceAccounts : gmap string workloadIdentity)
    (requests : list (string * string))
  : (option (gmap string workloadIdentity) * option error)
    * list (string * string) :=
  match workloadEntries with
  | [] => ((Some seenServiceAccounts, None), requests)
  | entryCfg :: rest =>
      match seenServiceAccounts !! ServiceAccount entryCfg with
      | Some _ =>
          getIdentityForEachWorkload_loop rest seenServiceAccounts requests
      | None =>
          if String.eqb (ServiceAccount entryCfg) "" then
            ((None,
              Some ("cannot generate a ServiceAccount token for a WorkloadEntry "
                    +:+ resourceURI "networking.istio.io/v1beta1" "workloadentries"
                          (we_Namespace entryCfg) (we_Name entryCfg)
                    +:+ " because ServiceAccount field is empty")),
             requests)
          else
            let requests' :=
              requests ++ [(we_Namespace entryCfg, ServiceAccount entryCfg)] in
            match CreateToken requests (we_Namespace entryCfg)
                              (ServiceAccount entryCfg) with
            | inr err =>
                ((None,
                  Some ("failed to generate a ServiceAccount token for a WorkloadEntry "
                        +:+ resourceURI "networking.istio.io/v1beta1"
                              "workloadentries"
                              (we_Namespace entryCfg) (we_Name entryCfg)
                        +:+ ": " +:+ err)),
                 requests')
            | inl token =>
                getIdentityForEachWorkload_loop rest
                  (<[ServiceAccount entryCfg :=
                       mkWorkloadIdentity (String.list_byte_of_string token)]>
                     seenServiceAccounts)
                  requests'
            end
      end
  end.

Definition getIdentityForEachWorkload (workloadEntries : list WorkloadEntry)
  : (option (gmap string workloadIdentity) * option error)
    * list (string * string) :=
  getIdentityForEachWorkload_loop workloadEntries ∅ [].

End Identity.

(** ** Writing the bundle to files *)

Definition dq : string := String "034" EmptyString.

Definition offlineProxyConfigDirEnv : string := "VM_FILES_DIR".

(** [path.Join] of two non-empty elements that are clean and hold no
    slash, as the file names of [processBundle] are. *)
Definition pathJoin (a b : string) : string := a +:+ "/" +:+ b.

Definition scriptFilePerm : N := 0x1ed.   (* 0755 *)

(** The fixed head of the start-up script. *)
Definition scriptHead : string :=
  Join
    [ "#!/usr/bin/env bash";
      "";
      "# Copyright Istio Authors";
      "#";
      "# Licensed under the Apache License, Version 2.0 (the " +:+ dq
        +:+ "License" +:+ dq +:+ ");";
      "# you may not use this file except in compliance with the License.";
      "# You may obtain a copy of the License at";
      "#";
      "#    http://www.apache.org/licenses/LICENSE-2.0";
      "#";
      "# Unless required by applicable law or agreed to in writing, software";
      "# distributed under the License is distributed on an " +:+ dq
        +:+ "AS IS" +:+ dq +:+ " BASIS,";
      "# WITHOUT WARRANTIES OR CONDITIONS OF ANY KIND, either express or implied.";
      "# See the License for the specific language governing permissions and";
      "# limitations under the License.";
      "";
      "SCRIPT_DIR=$( cd " +:+ dq +:+ "$(dirname " +:+ dq +:+ "$0" +:+ dq
        +:+ ")" +:+ dq +:+ " >/dev/null 2>&1 ; pwd -P )";
      "";
      "BASE_DIR=" +:+ dq +:+ "${SCRIPT_DIR}/.." +:+ dq;
      "";
      offlineProxyConfigDirEnv +:+ "=" +:+ dq +:+ "${BASE_DIR}/etc" +:+ dq;
      "";
      "" ]
    newline.

(** A call of the [write] callback: file name, permissions, content. *)
Definition writeCall : Type := string * N * list byte.

Section Write.

(** The [write] callback; its answer may depend on the calls made before. *)
Variable write : list writeCall → string → N → list byte → option error.

(** The loop over [items.filesToCopy], with the calls made. *)
Fixpoint writeFiles (files : list fileToCopy) (calls : list writeCall)
  : list writeCall * option error :=
  match files with
  | [] => (calls, None)
  | file :: rest =>
      let calls' :=
        calls ++ [(pathJoin "etc" (name file), perm file, data file)] in
      match write calls (pathJoin "etc" (name file)) (perm file) (data file) with
      | Some err => (calls', Some err)
      | None => writeFiles rest calls'
      end
  end.

(** The start-up script: the loop over [items.cmdsToExec]. *)
Definition scriptContent (cmdsToExec : list cmdToExec) : string :=
  fold_left
    (fun content command =>
       let content :=
         if required command then content +:+ "set -e" +:+ newline
         else content +:+ "set +e" +:+ newline in
       content +:+ (cmd command +:+ newline +:+ newline))
    cmdsToExec scriptHead.

(** [func writeBootstrapBundle(bundle BootstrapBundle, write func(...) error) error],
    with the calls of [write] made. *)
Definition writeBootstrapBundle (bundle : BootstrapBundle)
  : list writeCall * option error :=
  let items :=
    processBundle bundle (dq +:+ "${" +:+ offlineProxyConfigDirEnv +:+ "}" +:+ dq) in
  match writeFiles (filesToCopy items) [] with
  | (calls, Some err) => (calls, Some err)
  | (calls, None) =>
      let content := scriptContent (cmdsToExec items) in
      let file := pathJoin "bin" "start-istio-proxy.sh" in
      (calls ++ [(file, scriptFilePerm, String.list_byte_of_string content)],
       write calls file scriptFilePerm (String.list_byte_of_string content))
  end.

End Write.

(** The files [writeBootstrapBundle] is to write for a bundle. *)
Definition remoteDirOffline : string :=
  dq +:+ "${" +:+ offlineProxyConfigDirEnv +:+ "}" +:+ dq.

Definition expectedWrites (bundle : BootstrapBundle) : list writeCall :=
  [ ("etc/sidecar.env", configFilePerm, IstioProxyEnvironment bundle);
    ("etc/istio-ca.pem", configFilePerm, IstioCaCert bundle);
    ("etc/istio-token", secretFilePerm, ServiceAccountToken bundle);
    ("bin/start-istio-proxy.sh", scriptFilePerm,
     String.list_byte_of_string
       (scriptHead
        +:+ "set +e" +:+ newline
        +:+ "docker rm --force " +:+ IstioProxyContainerName bundle
        +:+ newline +:+ newline
        +:+ "set -e" +:+ newline
        +:+ Join (launchArgs bundle remoteDirOffline) " "
        +:+ newline +:+ newline)) ].

(** ** Copying the bundle over SSH *)

(** What is asked of the SSH client. *)
Inductive sshOp :=
  | Dial (address username : string)
  | Exec (command : string)
  | Copy (data : list byte) (path : string) (perm : N)
  | Close.

Section Copy.

(** The SSH client: its answer to an operation, which may depend on the
    operations before it.  [path.Join] is the standard library's. *)
Variable client : list sshOp → sshOp → option error.
Variable path_Join : string → string → string.

(** The flag [--start-istio-proxy]. *)
Variable startIstioProxy : bool.

Definition ask (ops : list sshOp) (op : sshOp) : list sshOp * option error :=
  (ops ++ [op], client ops op).

(** The loop over [items.filesToCopy]. *)
Fixpoint copyFiles (files : list fileToCopy) (dirs : gmap string bool)
    (ops : list sshOp) : list sshOp * option error :=
  match files with
  | [] => (ops, None)
  | file :: rest =>
      let copy dirs ops :=
        match ask ops (Copy (data file) (path_Join (dir file) (name file))
                            (perm file)) with
        | (ops, Some err) => (ops, Some err)
        | (ops, None) => copyFiles rest dirs ops
        end in
      if negb (default false (dirs !! dir file)) then
        match ask ops (Exec ("mkdir -p " +:+ dir file)) with
        | (ops, Some err) => (ops, Some err)
        | (ops, None) => copy (<[dir file := true]> dirs) ops
        end
      else copy dirs ops
  end.

(** The loop over [items.cmdsToExec]. *)
Fixpoint execCommands (commands : list cmdToExec) (ops : list sshOp)
  : list sshOp * option error :=
  match commands with
  | [] => (ops, None)
  | command :: rest =>
      match ask ops (Exec (cmd command)) with
      | (ops, Some err) =>
          if required command then (ops, Some err)
          else execCommands rest ops
      | (ops, None) => execCommands rest ops
      end
  end.

(** [func copyBootstrapBundle(sshConfig ssh.ClientConfig, ssh sshParams, items bootstrapItems) error],
    with the operations asked of the client; the deferred [Close] comes
    last. *)
Definition copyBootstrapBundle (address username : string)
    (items : bootstrapItems) : list sshOp * option error :=
  match ask [] (Dial address username) with
  | (ops, Some err) => (ops, Some err)
  | (ops, None) =>
      let '(ops, err) :=
        match copyFiles (filesToCopy items) ∅ ops with
        | (ops, Some err) => (ops, Some err)
        | (ops, None) =>
            if startIstioProxy then execCommands (cmdsToExec items) ops
            else (ops, None)
        end in
      (ops ++ [Close], err)
  end.

End Copy.

(** The directories made by the operations. *)
Definition madeDirs (ops : list sshOp) : list string :=
  omap (fun op =>
          match op with
          | Exec command =>
              if String.prefix "mkdir -p " command
              then Some (String.substring 9 (String.length command - 9) command)
              else None
          | _ => None
          end) ops.

(** The files copied by the operations: content, path and permissions. *)
Definition copiedFiles (ops : list sshOp) : list (list byte * string * N) :=
  omap (fun op =>
          match op with
          | Copy data path perm => Some (data, path, perm)
          | _ => None
          end) ops.

(** An operation that runs a command or copies a file. *)
Definition moves (op : sshOp) : Prop :=
  match op with
  | Exec _ | Copy _ _ _ => True
  | Dial _ _ | Close => False
  end.

(** ** Sample inputs *)

Definition plainURI (apiVersion kind namespace name : string) : string :=
  apiVersion +:+ "/" +:+ kind +:+ "/" +:+ namespace +:+ "/" +:+ name.

Definition splitPlain (service namespace : string) : string * string :=
  (service, namespace).

Definition gatewayService : Service :=
  mkService "istio-system" "istio-ingressgateway" [80%Z; 15443%Z]
            [ mkLoadBalancerIngress "" "10.0.0.1";
              mkLoadBalancerIngress "gw.example.com" "10.0.0.2" ].

Definition oneService (namespace service : string) : Service + error :=
  if String.eqb service "istio-ingressgateway" then inl gatewayService
  else inr "not found".

Definition tokenFor (requests : list (string * string))
    (namespace name : string) : string + error :=
  inl (namespace +:+ "/" +:+ name).

Definition sampleWorkloads : list WorkloadEntry :=
  [ mkWorkloadEntry "prod" "vm-1" "reviews";
    mkWorkloadEntry "staging" "vm-2" "reviews";
    mkWorkloadEntry "prod" "vm-3" "ratings" ].

Definition acceptWrite (calls : list writeCall) (file : string) (perm : N)
    (content : list byte) : option error := None.

Definition failingRm (ops : list sshOp) (op : sshOp) : option error :=
  match op with
  | Exec command =>
      if String.prefix "docker rm" command then Some "no such container"
      else None
  | _ => None
  end.

End Onboarding.

(** * Sync status of a proxy: helpers *)

Module SyncReport.

Import Pilot.

(** The status of the last configuration of a kind, the empty string when
    there is none. *)
Definition statusOfLast (kind : isPerXdsConfig → bool)
    (configs : list PerXdsConfig) : string :=
  from_option Status_String ""
    (last (List.filter (fun config => kind (PerXdsConfig_oneof config))
                       configs)).

Definition isCluster (o : isPerXdsConfig) : bool :=
  match o with PerXdsConfig_ClusterConfig => true | _ => false end.

Definition isListener (o : isPerXdsConfig) : bool :=
  match o with PerXdsConfig_ListenerConfig => true | _ => false end.

Definition isEndpoint (o : isPerXdsConfig) : bool :=
  match o with PerXdsConfig_EndpointConfig => true | _ => false end.

Definition isRoute (o : isPerXdsConfig) : bool :=
  match o with PerXdsConfig_RouteConfig => true | _ => false end.

(** A decoder that rejects every payload, and a response with one
    ClientConfig resource. *)
Definition rejectAll (resource : Any) : ClientConfig + string :=
  inr "proto: cannot parse invalid wire-format data".

Definition oneClientConfig : DiscoveryResponse :=
  mkDiscoveryResponse [mkAny ClientConfigTypeUrl []] "istiod-0".

Definition noCpInfo (dr : DiscoveryResponse) : string * string :=
  (ControlPlaneIdentifier dr, "").

End SyncReport.

(** * Detection of the token policy *)

Module Util.

(** [type JWTPolicy string] *)
Definition JWTPolicy : Type := string.

Definition FirstPartyJWT : JWTPolicy := "first-party-jwt".
Definition ThirdPartyJWT : JWTPolicy := "third-party-jwt".

(** An error of the discovery client: [*discovery.ErrGroupDiscoveryFailed],
    which [discovery.IsGroupDiscoveryFailedError] recognises, with the
    group versions that are the keys of its [Groups], or another error. *)
Inductive discoveryError :=
  | ErrGroupDiscoveryFailed (Groups : list (string * string))
  | OtherError (msg : string).

(** [metav1.APIResourceList], by the names of its [APIResources]. *)
Record APIResourceList := mkAPIResourceList {
  APIResources : list string;
}.

Section Detect.

(** [*rest.Config] and the discovery client of [k8s.io/client-go]:
    [discovery.NewDiscoveryClientForConfig] and
    [ServerGroupsAndResources], of which the resource lists and the error
    are read. *)
Variables Config DiscoveryClient : Type.
Variable NewDiscoveryClientForConfig : Config → DiscoveryClient + discoveryError.
Variable ServerGroupsAndResources :
  DiscoveryClient → list APIResourceList * option discoveryError.

(** The two loops over the resource lists and their resources. *)
Definition supportsTokenRequest (s : list APIResourceList) : bool :=
  existsb
    (fun res =>
       existsb (fun api => String.eqb api "serviceaccounts/token")
               (APIResources res))
    s.

(** [func DetectSupportedJWTPolicy(config *rest.Config) (JWTPolicy, error)] *)
Definition DetectSupportedJWTPolicy (config : option Config)
  : JWTPolicy * option discoveryError :=
  match config with
  | None => (ThirdPartyJWT, None)
  | Some config =>
      match NewDiscoveryClientForConfig config with
      | inr err => ("", Some err)
      | inl d =>
          let '(s, err) := ServerGroupsAndResources d in
          let detect :=
            if supportsTokenRequest s then (ThirdPartyJWT, None)
            else (FirstPartyJWT, None) in
          match err with
          | Some (ErrGroupDiscoveryFailed Groups as err) =>
              if existsb
                   (fun gv => String.eqb (fst gv) "authentication.k8s.io"
                              && String.eqb (snd gv) "v1")
                   Groups
              then ("", Some err)
              else detect
          | Some err => ("", Some err)
          | None => detect
          end
      end
  end.

End Detect.

(** A cluster whose metrics group cannot be discovered and that serves the
    token request API. *)
Definition partialDiscovery (d : unit)
  : list APIResourceList * option discoveryError :=
  ([ mkAPIResourceList ["pods"; "serviceaccounts"; "serviceaccounts/token"] ],
   Some (ErrGroupDiscoveryFailed [("metrics.k8s.io", "v1beta1")])).

Definition connect (config : unit) : unit + discoveryError := inl tt.

End Util.

(** * Properties of the sync-status printer *)

Section PilotProperties.

Import Pilot Samples.

Lemma eqb_empty_false (s : string) : s ≠ "" → String.eqb s "" = false.
Proof. intros Hs. by apply String.eqb_neq. Qed.

(** C5: the status label is a total function of the pair (sent, acked):
    NOT SENT when sent is empty, SYNCED when sent equals acked and both are
    non-empty, STALE (Never Acknowledged) when sent is non-empty and acked
    is empty, STALE when both are non-empty and differ. *)
Theorem xdsStatus_label (sent acked : string) :
  (sent = "" → xdsStatus sent acked = "NOT SENT") ∧
  (sent ≠ "" → sent = acked → xdsStatus sent acked = "SYNCED") ∧
  (sent ≠ "" → acked = "" →
     xdsStatus sent acked = "STALE (Never Acknowledged)") ∧
  (sent ≠ "" → acked ≠ "" → sent ≠ acked → xdsStatus sent acked = "STALE").
Proof.
  unfold xdsStatus. repeat split.
  - intros ->. reflexivity.
  - intros Hs <-. rewrite (eqb_empty_false _ Hs), String.eqb_refl. reflexivity.
  - intros Hs ->. rewrite (eqb_empty_false _ Hs). reflexivity.
  - intros Hs Ha Hne. rewrite (eqb_empty_false _ Hs), (eqb_empty_false _ Ha).
    apply String.eqb_neq in Hne. rewrite Hne. reflexivity.
Qed.

(** The boundary table of the labels, obtained from [xdsStatus_label]. *)
Lemma xdsStatus_label_witness :
  xdsStatus "" "" = "NOT SENT" ∧
  xdsStatus "n1" "n1" = "SYNCED" ∧
  xdsStatus "n1" "" = "STALE (Never Acknowledged)" ∧
  xdsStatus "n1" "n2" = "STALE".
Proof.
  split; [| split; [| split]].
  - apply (xdsStatus_label "" ""). reflexivity.
  - apply (xdsStatus_label "n1" "n1"); [discriminate | reflexivity].
  - apply (xdsStatus_label "n1" ""); [discriminate | reflexivity].
  - apply (xdsStatus_label "n1" "n2"); discriminate.
Defined.

(** C1 (what the code does): for the four named columns the label is
    computed from the legacy singular fields whatever the per-type entry
    holds; a row whose per-type cluster entry is sent and acknowledged, and
    whose legacy fields are empty, is printed as NOT SENT, while the
    per-type entry itself reads SYNCED. *)
Theorem statusPrintln_named_columns_use_legacy_fields
    (GetShortType : string → string) (sw : writerStatus) :
  curStatus GetShortType sw "CDS"
    = xdsStatus (ClusterSent (status sw)) (ClusterAcked (status sw)) ∧
  curStatus GetShortType sw "LDS"
    = xdsStatus (ListenerSent (status sw)) (ListenerAcked (status sw)) ∧
  curStatus GetShortType sw "RDS"
    = xdsStatus (RouteSent (status sw)) (RouteAcked (status sw)) ∧
  curStatus GetShortType sw "EDS"
    = xdsStatus (EndpointSent (status sw)) (EndpointAcked (status sw)) ∧
  (let row := genericOnlyRow GetShortType in
   let generic := statusOf (Statuses (status row)) (GetShortType "CDS") in
   xdsStatus (NonceSent generic) (NonceAcked generic) = "SYNCED" ∧
   statusPrintln GetShortType (mkStatusWriter ["CDS"]) "" row
     = ("sleep.default" +:+ tab +:+ "NOT SENT" +:+ tab +:+ "istiod-0"
          +:+ tab +:+ "1.9.0" +:+ newline, None)).
Proof.
  repeat split; try reflexivity.
  cbn. unfold statusOf. rewrite lookup_singleton_eq. reflexivity.
Qed.

End PilotProperties.

Section XdsStatusWriterProperties.

Import Pilot Samples.

Context {W : Type} `{!IoWriter W}.
Variable UnmarshalTo : Any → ClientConfig + string.
Variable CpInfo : DiscoveryResponse → string * string.
Variable sortByProxyID : list xdsWriterStatus → list xdsWriterStatus.
Variable tabformat : string → list byte.

Lemma setupResource_raw ndrs dr out rs :
  Forall rawResource rs →
  fold_left (setupResource UnmarshalTo CpInfo sortByProxyID ndrs dr) rs
            (mkSetup out None [] None)
  = mkSetup (fold_left (fun out _ => writeThrough out dr) rs out) None [] None.
Proof.
  intros Hrs. revert out.
  induction Hrs as [| resource rs Hraw _ IH]; intros out; simpl; [done |].
  unfold setupResource at 2. simpl. rewrite Hraw. apply IH.
Qed.

Lemma setupStatusPrint_raw (out : W) drs :
  Forall (fun '(_, dr) => Forall rawResource (Resources dr)) drs →
  setupStatusPrint UnmarshalTo CpInfo sortByProxyID out drs
  = mkSetup (passedThrough out drs) None [] None.
Proof.
  unfold setupStatusPrint, passedThrough.
  generalize (length drs) as ndrs. intros ndrs Hdrs. revert out.
  induction Hdrs as [| [key dr] drs Hdr _ IH]; intros out; simpl; [done |].
  rewrite (setupResource_raw _ _ _ _ Hdr). apply IH.
Qed.

(** When no resource has the ClientConfig type, [PrintAll] returns a nil
    error whatever the sink does, and leaves [passedThrough] in it. *)
Lemma PrintAll_raw (out : W) drs :
  Forall (fun '(_, dr) => Forall rawResource (Resources dr)) drs →
  PrintAll UnmarshalTo CpInfo sortByProxyID tabformat out drs
  = Return (passedThrough out drs, None).
Proof.
  intros Hdrs. unfold PrintAll. rewrite (setupStatusPrint_raw _ _ Hdrs).
  reflexivity.
Qed.

End XdsStatusWriterProperties.

Section XdsStatusWriterDuplicates.

Import Pilot Samples.

Lemma fold_left_snoc {A B} (f : A → B) (l : list A) (acc : list B) :
  fold_left (fun acc x => acc ++ [f x]) l acc = acc ++ map f l.
Proof.
  revert acc. induction l as [| x l IH]; intros acc; simpl.
  - by rewrite app_nil_r.
  - rewrite IH, <- app_assoc. reflexivity.
Qed.

(** On the recording sink, a response with [n] resources, none of the
    ClientConfig type, leaves the sequence of its payloads [n] times. *)
Lemma passedThrough_single_response (key : string) (dr : DiscoveryResponse) :
  passedThrough (W := Recorder) [] [(key, dr)]
  = mjoin (replicate (length (Resources dr)) (Value <$> Resources dr)).
Proof.
  assert (∀ out : Recorder,
            writeThrough out dr = out ++ (Value <$> Resources dr)) as Hwrite.
  { intros out. apply (fold_left_snoc Value). }
  unfold passedThrough. simpl.
  generalize (Resources dr) at 1 2 as l. intros l.
  rewrite <- (app_nil_l (mjoin _)). generalize (@nil (list byte)) as out.
  induction l as [| x l IH]; intros out; simpl.
  - by rewrite app_nil_r.
  - rewrite IH, Hwrite, <- app_assoc. reflexivity.
Qed.

Variable UnmarshalTo : Any → ClientConfig + string.
Variable CpInfo : DiscoveryResponse → string * string.
Variable sortByProxyID : list xdsWriterStatus → list xdsWriterStatus.
Variable tabformat : string → list byte.

(** C4 (what the code does): a response with two resources of a type other
    than ClientConfig makes [PrintAll] return a nil error, but the payload
    of each resource reaches the writer twice: the passthrough loop over
    all resources runs once per resource of the response. *)
Theorem PrintAll_writes_raw_resources_repeatedly :
  PrintAll (W := Recorder) UnmarshalTo CpInfo sortByProxyID tabformat
           [] [("istiod-0", twoRawResources)]
  = Return ([bytesOf "a"; bytesOf "b"; bytesOf "a"; bytesOf "b"], None).
Proof. reflexivity. Qed.

End XdsStatusWriterDuplicates.

(** * Properties of the bootstrap composer *)

Section BootstrapProperties.

Import Bootstrap Samples.

Lemma fold_left_add_host bundle (hosts : list string) (cmd : list string) :
  fold_left
    (fun cmd host =>
       cmd ++ ["--add-host"; host +:+ ":" +:+ IstioIngressGatewayAddress bundle])
    hosts cmd
  = cmd ++ flat_map (addHost bundle) hosts.
Proof.
  revert cmd. induction hosts as [| host hosts IH]; intros cmd; simpl.
  - by rewrite app_nil_r.
  - rewrite IH, <- app_assoc. reflexivity.
Qed.

Lemma launchArgs_shape bundle remoteDir :
  launchArgs bundle remoteDir
  = launchHead bundle remoteDir
      ++ flat_map (addHost bundle) (IstioProxyHosts bundle)
      ++ [IstioProxyImage bundle]
      ++ IstioProxyArgs bundle.
Proof.
  unfold launchArgs. rewrite fold_left_add_host, <- !app_assoc. reflexivity.
Qed.

(** The items the unit test expects for its bundle. *)
Example processBundle_testBundle :
  processBundle testBundle "/etc/istio-proxy"
  = mkBootstrapItems
      [ mkFileToCopy "sidecar.env" "/etc/istio-proxy" 420 (bytesOf "KEY=VALUE");
        mkFileToCopy "istio-ca.pem" "/etc/istio-proxy" 420
                     (bytesOf "Istio CA certs");
        mkFileToCopy "istio-token" "/etc/istio-proxy" 416
                     (bytesOf "k8s SA token") ]
      [ mkCmdToExec "docker rm --force istio-proxy" false;
        mkCmdToExec
          ("docker run -d --name istio-proxy --restart unless-stopped --network host "
           +:+ "-v /etc/istio-proxy/istio-ca.pem:/var/run/secrets/istio/root-cert.pem "
           +:+ "-v /etc/istio-proxy/istio-token:/var/run/secrets/tokens/istio-token "
           +:+ "--env-file /etc/istio-proxy/sidecar.env "
           +:+ "--add-host istiod.istio-system.svc:1.2.3.4 "
           +:+ "--add-host zipkin.istio-monitoring.svc:1.2.3.4 "
           +:+ "proxyv2:latest "
           +:+ "proxy sidecar")
          true ].
Proof. reflexivity. Qed.

(** C7, as stated, asks for a volume mount for each of the three files.
    For the bundle of the unit test the launch command mounts no volume for
    the environment file. *)
Lemma launch_command_mounts_not_all_files :
  ¬ Forall
      (fun f =>
         hasVolumeMount (launchArgs testBundle "/etc/istio-proxy")
                        (dir f +:+ "/" +:+ name f) = true)
      (filesToCopy (processBundle testBundle "/etc/istio-proxy")).
Proof.
  intros Hall. apply Forall_cons_1 in Hall as [Henv _].
  vm_compute in Henv. discriminate Henv.
Qed.

(** C7 (amended): [processBundle] produces exactly the three files
    sidecar.env, istio-ca.pem and istio-token, in this order, each targeted
    at the remote directory, the token with mode 0640 (a strict subset of
    the bits of 0644, not readable by others) and the other two with 0644;
    and exactly two commands: the non-required removal of the prior
    container and the required launch command, whose arguments are the
    fixed head (with volume mounts for the CA certificate and the token,
    and an env-file reference to sidecar.env), one [--add-host] flag per
    host alias mapped to the ingress gateway address, the image, and the
    process arguments. *)
Theorem processBundle_items (bundle : BootstrapBundle) (remoteDir : string) :
  processBundle bundle remoteDir
  = mkBootstrapItems
      [ mkFileToCopy "sidecar.env" remoteDir configFilePerm
                     (IstioProxyEnvironment bundle);
        mkFileToCopy "istio-ca.pem" remoteDir configFilePerm
                     (IstioCaCert bundle);
        mkFileToCopy "istio-token" remoteDir secretFilePerm
                     (ServiceAccountToken bundle) ]
      [ mkCmdToExec
          ("docker rm --force " +:+ IstioProxyContainerName bundle) false;
        mkCmdToExec
          (Join (launchHead bundle remoteDir
                   ++ flat_map (addHost bundle) (IstioProxyHosts bundle)
                   ++ [IstioProxyImage bundle]
                   ++ IstioProxyArgs bundle) " ")
          true ]
  ∧ N.land secretFilePerm configFilePerm = secretFilePerm
  ∧ secretFilePerm ≠ configFilePerm
  ∧ N.land secretFilePerm 4 = 0%N
  ∧ length (flat_map (addHost bundle) (IstioProxyHosts bundle))
    = 2 * length (IstioProxyHosts bundle).
Proof.
  split; [| split; [| split; [| split]]].
  - unfold processBundle. rewrite launchArgs_shape. reflexivity.
  - reflexivity.
  - discriminate.
  - reflexivity.
  - induction (IstioProxyHosts bundle) as [| host hosts IH]; simpl; [done |].
    rewrite IH. lia.
Qed.

End BootstrapProperties.

(** * Properties of the diff walker *)

Section RevisionProperties.

Import Revision.

Variable Sprintf_q : string → string.
Variable Sprintf_v_float64 : Qc → string.

Abbreviation diffWalk := (diffWalk Sprintf_q Sprintf_v_float64).
Abbreviation rangeMap := (rangeMap Sprintf_q Sprintf_v_float64).
Abbreviation rangeSlice := (rangeSlice Sprintf_q Sprintf_v_float64).

Lemma diffWalk_map_map path separator v typedOrig :
  diffWalk path separator (VMap v) (VMap typedOrig)
  = rangeMap path separator typedOrig v [].
Proof. reflexivity. Qed.

Lemma diffWalk_slice_slice path separator v typedOrig :
  diffWalk path separator (VSlice v) (VSlice typedOrig)
  = rangeSlice path typedOrig 0 v [].
Proof. reflexivity. Qed.

(** Induction on trees, with the property available for every element of a
    sequence and every value of a map. *)
Lemma value_tree_ind (P : value → Prop) :
  P VNil → (∀ b, P (VBool b)) → (∀ x, P (VNumber x)) → (∀ s, P (VString s)) →
  (∀ vs, (∀ x, x ∈ vs → P x) → P (VSlice vs)) →
  (∀ kvs, (∀ k x, (k, x) ∈ kvs → P x) → P (VMap kvs)) →
  ∀ v, P v.
Proof.
  intros HNil HBool HNumber HString HSlice HMap.
  fix IH 1. intros [| b | x | s | vs | kvs].
  - exact HNil.
  - exact (HBool b).
  - exact (HNumber x).
  - exact (HString s).
  - apply HSlice. induction vs as [| y vs IHvs]; intros x Hx.
    + clear IH. by apply elem_of_nil in Hx.
    + apply elem_of_cons in Hx as [-> | Hx]; [apply IH |].
      clear IH. by apply IHvs.
  - apply HMap. induction kvs as [| [k' y] kvs IHkvs]; intros k x Hx.
    + clear IH. by apply elem_of_nil in Hx.
    + apply elem_of_cons in Hx as [Heq | Hx].
      * injection Heq as -> ->. apply IH.
      * clear IH. by eapply IHkvs.
Qed.

Lemma uniqueKeys_slice vs :
  uniqueKeys (VSlice vs) = true ↔ ∀ x, x ∈ vs → uniqueKeys x = true.
Proof.
  induction vs as [| y vs IH].
  - split; [intros _ x Hx; by apply elem_of_nil in Hx | done].
  - change (uniqueKeys (VSlice (y :: vs)))
      with (uniqueKeys y && uniqueKeys (VSlice vs)).
    rewrite andb_true_iff, IH. split.
    + intros [Hy Hvs] x Hx.
      apply elem_of_cons in Hx as [-> | Hx]; [done | by apply Hvs].
    + intros Hall. split; [apply Hall; left |].
      intros x Hx. apply Hall. by right.
Qed.

Lemma uniqueKeys_map_cons k y kvs :
  uniqueKeys (VMap ((k, y) :: kvs)) = true ↔
  (∀ k' x, (k', x) ∈ kvs → k ≠ k') ∧ uniqueKeys y = true
  ∧ uniqueKeys (VMap kvs) = true.
Proof.
  change (uniqueKeys (VMap ((k, y) :: kvs)))
    with (forallb (fun kv => negb (String.eqb k kv.1)) kvs
          && uniqueKeys y && uniqueKeys (VMap kvs)).
  rewrite !andb_true_iff, forallb_forall.
  split.
  - intros [[Hk Hy] Hkvs]. repeat split; try done.
    intros k' x Hin ->. apply list_elem_of_In, Hk in Hin. simpl in Hin.
    by rewrite String.eqb_refl in Hin.
  - intros (Hk & Hy & Hkvs). repeat split; try done.
    intros [k' x] Hin. simpl. apply negb_true_iff, String.eqb_neq.
    eapply Hk. by apply list_elem_of_In.
Qed.

Lemma uniqueKeys_map_values kvs :
  uniqueKeys (VMap kvs) = true →
  ∀ k x, (k, x) ∈ kvs → uniqueKeys x = true.
Proof.
  induction kvs as [| [k' y] kvs IH]; intros Hu k x Hin.
  - by apply elem_of_nil in Hin.
  - apply uniqueKeys_map_cons in Hu as (_ & Hy & Hkvs).
    apply elem_of_cons in Hin as [Heq | Hin]; [| by eapply IH].
    by injection Heq as -> ->.
Qed.

(** Indexing a map with distinct keys by the key of one of its entries
    yields the value of that entry. *)
Lemma mapIndex_entry kvs k x :
  uniqueKeys (VMap kvs) = true → (k, x) ∈ kvs → mapIndex kvs k = x.
Proof.
  induction kvs as [| [k' y] kvs IH]; intros Hu Hin.
  - by apply elem_of_nil in Hin.
  - apply uniqueKeys_map_cons in Hu as (Hk & _ & Hkvs). simpl.
    apply elem_of_cons in Hin as [Heq | Hin].
    + injection Heq as -> ->. by rewrite String.eqb_refl.
    + destruct (String.eqb_spec k' k) as [-> | _]; [| by apply IH].
      by destruct (Hk k x Hin).
Qed.

Lemma rangeSlice_same path typedOrig vs :
  (∀ x, x ∈ vs → ∀ p s, diffWalk p s x x = Return ([], None)) →
  ∀ idx accum,
    drop idx typedOrig = vs →
    rangeSlice path typedOrig idx vs accum = Return (accum, None).
Proof.
  induction vs as [| vv vs IH]; intros Hall idx accum Hdrop; simpl; [done |].
  assert (typedOrig !! idx = Some vv) as Hidx.
  { rewrite <- (Nat.add_0_r idx), <- lookup_drop, Hdrop. reflexivity. }
  rewrite Hidx, (Hall vv); [| by left]. simpl. rewrite app_nil_r.
  apply IH.
  - intros x Hx. apply Hall. by right.
  - rewrite (drop_S _ _ _ Hidx) in Hdrop. by injection Hdrop.
Qed.

Lemma rangeMap_same path separator typedOrig kvs :
  uniqueKeys (VMap typedOrig) = true →
  (∀ k x, (k, x) ∈ kvs → (k, x) ∈ typedOrig) →
  (∀ k x, (k, x) ∈ kvs → ∀ p s, diffWalk p s x x = Return ([], None)) →
  ∀ accum, rangeMap path separator typedOrig kvs accum = Return (accum, None).
Proof.
  intros Hu. induction kvs as [| [key vv] kvs IH]; intros Hsub Hall accum;
    simpl; [done |].
  rewrite (mapIndex_entry typedOrig key vv Hu); [| apply Hsub; by left].
  rewrite (Hall key vv); [| by left]. simpl. rewrite app_nil_r.
  apply IH.
  - intros k x Hin. apply Hsub. by right.
  - intros k x Hin. apply (Hall k x). by right.
Qed.

(** C3 (what the code does): when the current sequence has an element and
    the baseline sequence has none at that index, the index expression on
    the baseline panics; no record list is returned. *)
Theorem diffWalk_sequence_longer_than_baseline_panics
    (path separator : string) (vv : value) (vs : list value) :
  diffWalk path separator (VSlice (vv :: vs)) (VSlice [])
  = Panic "index out of range"
  ∧ diffWalk "" "" (VSlice [VString "a"]) (VSlice [])
    = Panic "index out of range".
Proof. split; reflexivity. Qed.

(** C6: a nil or shape-mismatched baseline branch yields no record for the
    branch or its descendants: any tree against a nil baseline, a map
    against a baseline that is not a map, a sequence against a baseline
    that is not a sequence; and inside a map, an entry whose key has a nil
    (or no) baseline value leaves the records gathered so far unchanged. *)
Theorem diffWalk_without_baseline (path separator : string) (obj orig : value) :
  diffWalk path separator obj VNil = Return ([], None) ∧
  (∀ v, obj = VMap v → (∀ t, orig ≠ VMap t) →
        diffWalk path separator obj orig = Return ([], None)) ∧
  (∀ v, obj = VSlice v → (∀ t, orig ≠ VSlice t) →
        diffWalk path separator obj orig = Return ([], None)) ∧
  (∀ key typedOrig kvs accum,
     mapIndex typedOrig key = VNil →
     rangeMap path separator typedOrig ((key, obj) :: kvs) accum
     = rangeMap path separator typedOrig kvs accum).
Proof.
  assert (∀ p s, diffWalk p s obj VNil = Return ([], None)) as Hnil.
  { intros p s. destruct obj; simpl; try reflexivity.
    all: by rewrite andb_false_r. }
  split; [apply Hnil |]. split; [| split].
  - intros v -> Hshape. destruct orig; try reflexivity.
    by destruct (Hshape v0).
  - intros v -> Hshape. destruct orig; try reflexivity.
    by destruct (Hshape v0).
  - intros key typedOrig kvs accum Hkey. simpl.
    rewrite Hkey, Hnil. simpl. by rewrite app_nil_r.
Qed.

(** C8: a tree diffed against itself yields no record (the keys of each of
    its maps being distinct, as in a Go map). *)
Theorem diffWalk_same (X : value) :
  uniqueKeys X = true →
  ∀ path separator, diffWalk path separator X X = Return ([], None).
Proof.
  induction X as [| b | x | s | vs IH | kvs IH] using value_tree_ind;
    intros Hu path separator.
  - reflexivity.
  - by destruct b.
  - simpl. by rewrite bool_decide_eq_true_2.
  - simpl. by rewrite String.eqb_refl.
  - rewrite diffWalk_slice_slice. apply rangeSlice_same; [| done].
    intros x Hx. apply IH; [done |].
    by apply (proj1 (uniqueKeys_slice vs) Hu).
  - rewrite diffWalk_map_map. apply rangeMap_same; [done | done |].
    intros k x Hin. apply (IH k x Hin).
    by apply (uniqueKeys_map_values kvs Hu k x).
Qed.

End RevisionProperties.

Section RevisionWitnesses.

Import Revision.

Lemma diffWalk_without_baseline_witness :
  diffWalk quotePlain showRatio "" "" deepTree VNil = Return ([], None) ∧
  diffWalk quotePlain showRatio "" "" deepTree (VString "profile")
  = Return ([], None) ∧
  diffWalk quotePlain showRatio "" "" (VSlice [deepTree]) (VMap [])
  = Return ([], None) ∧
  rangeMap quotePlain showRatio "" "" [("hub", VString "gcr.io")]
           [("spec", deepTree)] []
  = Return ([], None).
Proof.
  split; [| split; [| split]].
  - apply (diffWalk_without_baseline quotePlain showRatio "" "" deepTree VNil).
  - destruct (diffWalk_without_baseline quotePlain showRatio "" "" deepTree
                (VString "profile")) as (_ & Hmap & _).
    eapply Hmap; [reflexivity | discriminate].
  - destruct (diffWalk_without_baseline quotePlain showRatio "" ""
                (VSlice [deepTree]) (VMap [])) as (_ & _ & Hslice & _).
    eapply Hslice; [reflexivity | discriminate].
  - destruct (diffWalk_without_baseline quotePlain showRatio "" "" deepTree
                VNil) as (_ & _ & _ & Hentry).
    rewrite (Hentry "spec" [("hub", VString "gcr.io")] [] []); reflexivity.
Defined.

Lemma diffWalk_same_witness :
  uniqueKeys deepTree = true ∧
  diffWalk quotePlain showRatio "" "" deepTree deepTree = Return ([], None).
Proof.
  split; [reflexivity |].
  apply (diffWalk_same quotePlain showRatio deepTree); reflexivity.
Defined.

End RevisionWitnesses.

(** * Properties of the validation walker *)

Section LeafProperties.

Import Validate.

Context `{Helpers}.

(** C9: for an empty/absent leaf value [validateLeaf] returns no error and
    runs no rule (the result is the same for every rule table), except when
    required-field checking is on and the path is marked required: then it
    returns exactly one error, naming the path in its display form.  With
    [checkRequired = false] an empty value yields no error at any path. *)
Theorem validateLeaf_empty_value (required : gmap string bool)
    (validations : gmap string ValidatorFunc) (path : Path) (val : iface)
    (checkRequired : bool) :
  IsValueNil val || IsEmptyString val = true →
  (checkRequired = false →
     validateLeaf required validations path val checkRequired = []) ∧
  (required !! Path_String path ≠ Some true →
     validateLeaf required validations path val checkRequired = []) ∧
  (checkRequired = true → required !! Path_String path = Some true →
     validateLeaf required validations path val checkRequired
     = [ErrRequiredNotSet (ToYAMLPathString (Path_String path))]) ∧
  (∀ validations',
     validateLeaf required validations' path val checkRequired
     = validateLeaf required validations path val checkRequired).
Proof.
  intros Hempty. unfold validateLeaf. rewrite Hempty.
  split; [| split; [| split]].
  - by intros ->.
  - intros Hreq. destruct (required !! Path_String path) as [[] |]; simpl;
      try done; by rewrite andb_false_r.
  - by intros -> ->.
  - done.
Qed.

(** With the table the package ships, the guard of the required-field
    branch is false at every path. *)
Lemma required_guard_shipped (checkRequired : bool) (pstr : string) :
  checkRequired && default false (requiredValues !! pstr) = false.
Proof.
  unfold requiredValues. rewrite lookup_empty. apply andb_false_r.
Qed.

Lemma validateLeaf_noRequired validations path val checkRequired :
  Forall (fun e => isRequiredNotSet e = false)
         (validateLeaf requiredValues validations path val checkRequired).
Proof.
  unfold validateLeaf. rewrite required_guard_shipped.
  destruct (IsValueNil val || IsEmptyString val); [constructor |].
  destruct (getValidationFuncForPath validations path) as [vf |];
    [| constructor].
  apply Forall_fmap, Forall_true. done.
Qed.

End LeafProperties.

Section LeafWitness.

Import Validate.

Lemma validateLeaf_empty_value_witness :
  let required : gmap string bool := {[ "Hub" := true ]} in
  let failing : gmap string ValidatorFunc :=
    {[ "Hub" := fun _ _ => ["hub is never valid"] ]} in
  validateLeaf required failing ["Hub"] (Data (VString "")) true
    = [ErrRequiredNotSet "Hub"] ∧
  validateLeaf required failing ["Hub"] (Data (VString "")) false = [] ∧
  validateLeaf required failing ["Tag"] (Data (VString "")) true = [].
Proof.
  intros required failing.
  destruct (validateLeaf_empty_value (H := specHelpers) required failing ["Hub"]
              (Data (VString "")) true eq_refl) as (_ & _ & Hreq & _).
  destruct (validateLeaf_empty_value (H := specHelpers) required failing ["Hub"]
              (Data (VString "")) false eq_refl) as (Hoff & _).
  destruct (validateLeaf_empty_value (H := specHelpers) required failing ["Tag"]
              (Data (VString "")) true eq_refl) as (_ & Hother & _).
  split; [| split].
  - apply Hreq; reflexivity.
  - apply Hoff; reflexivity.
  - apply Hother. vm_compute. discriminate.
Defined.

End LeafWitness.

Section EntryProperties.

Import Validate.

Context `{Helpers}.

Variable required : gmap string bool.
Variable validations : gmap string ValidatorFunc.
Variable checkRequired : bool.

(** C2 (amended): at its entry [Validate] returns no error for a nil
    argument and for a bare struct value (which it skips); for any other
    argument that is not a pointer it returns exactly one expected-ptr
    error; for a pointer whose pointee the struct check rejects it returns
    exactly one expected-struct error. *)
Theorem Validate_entry (structPtr : value) (path : Path) :
  (structPtr = Nil →
     Validate required validations checkRequired structPtr path = Return []) ∧
  (IsStruct (Data structPtr) = true →
     Validate required validations checkRequired structPtr path = Return []) ∧
  (structPtr ≠ Nil → IsStruct (Data structPtr) = false →
   IsPtr (Data structPtr) = false →
     Validate required validations checkRequired structPtr path
     = Return [ErrExpectedPtr path structPtr]) ∧
  (∀ structElems, structPtr = Pointer structElems →
   IsStruct (Data structPtr) = false → IsPtr (Data structPtr) = true →
   IsStruct (ReflectValue structElems) = false →
     Validate required validations checkRequired structPtr path
     = Return [ErrExpectedStruct path structElems]).
Proof.
  unfold Validate, Validate_checks. split; [| split; [| split]].
  - by intros ->.
  - intros Hstruct. destruct structPtr; try done; by rewrite Hstruct.
  - intros Hnil Hstruct Hptr.
    destruct structPtr; try done; by rewrite Hstruct, Hptr.
  - intros structElems -> Hstruct Hptr Helems.
    by rewrite Hstruct, Hptr, Helems.
Qed.

End EntryProperties.

Section EntryWitness.

Import Validate.

(** C2, as stated, promises a type-mismatch error for every argument that
    is not a reference to a struct.  A bare struct value is skipped:
    [Validate] returns the empty list for it. *)
Lemma Validate_bare_struct_is_no_error :
  ¬ (∀ structPtr : value,
       isStructPtr structPtr = false →
       ∃ e, Validate (H := specHelpers) requiredValues ∅ false structPtr []
            = Return [e]
            ∧ isTypeMismatch e = true).
Proof.
  intros Hclaim.
  destruct (Hclaim (StructOf [(mkStructField "Hub" None true false,
                               VString "docker.io/istio")]) eq_refl)
    as (e & Herr & _).
  vm_compute in Herr. discriminate Herr.
Qed.

Lemma Validate_entry_witness :
  Validate (H := specHelpers) requiredValues ∅ false Nil [] = Return [] ∧
  Validate (H := specHelpers) requiredValues ∅ false (StructOf []) []
    = Return [] ∧
  Validate (H := specHelpers) requiredValues ∅ false (VString "hub") []
    = Return [ErrExpectedPtr [] (VString "hub")] ∧
  Validate (H := specHelpers) requiredValues ∅ false
           (Pointer (Some (VInt 1))) []
    = Return [ErrExpectedStruct [] (Some (VInt 1))].
Proof.
  split; [| split; [| split]].
  - destruct (Validate_entry (H := specHelpers) requiredValues ∅ false Nil [])
      as (Hnil & _).
    by apply Hnil.
  - destruct (Validate_entry (H := specHelpers) requiredValues ∅ false
                (StructOf []) []) as (_ & Hbare & _).
    by apply Hbare.
  - destruct (Validate_entry (H := specHelpers) requiredValues ∅ false
                (VString "hub") []) as (_ & _ & Hptr & _).
    by apply Hptr.
  - destruct (Validate_entry (H := specHelpers) requiredValues ∅ false
                (Pointer (Some (VInt 1))) []) as (_ & _ & _ & Hstruct).
    by apply Hstruct.
Defined.

End EntryWitness.

Section RequiredProperties.

Import Validate.

Context `{Helpers}.

Variable validations : gmap string ValidatorFunc.
Variable checkRequired : bool.

Abbreviation fieldsOf := (Validate_fields requiredValues validations checkRequired).
Abbreviation checksOf := (Validate_checks fieldsOf).
Abbreviation clean := (Forall (fun e => isRequiredNotSet e = false)).

(** Induction on Go values, with the property available for the pointee of
    a pointer, the values of a map, the elements of a slice and the values
    of the fields of a struct. *)
Lemma go_value_ind (P : value → Prop) :
  P Nil → (∀ b, P (VBool b)) → (∀ n, P (VInt n)) → (∀ x, P (VFloat x)) →
  (∀ s, P (VString s)) →
  P (Pointer None) → (∀ t, P t → P (Pointer (Some t))) →
  P (MapOf None) →
  (∀ entries, (∀ k x, (k, x) ∈ entries → P x) → P (MapOf (Some entries))) →
  P (SliceOf None) →
  (∀ elems, (∀ x, x ∈ elems → P x) → P (SliceOf (Some elems))) →
  (∀ fields, (∀ fd x, (fd, x) ∈ fields → P x) → P (StructOf fields)) →
  ∀ v, P v.
Proof.
  intros HNil HBool HInt HFloat HString HPtrNil HPtr HMapNil HMap
         HSliceNil HSlice HStruct.
  fix IH 1.
  intros [| b | n | x | s | [t |] | [entries |] | [elems |] | fields].
  - exact HNil.
  - exact (HBool b).
  - exact (HInt n).
  - exact (HFloat x).
  - exact (HString s).
  - exact (HPtr t (IH t)).
  - exact HPtrNil.
  - apply HMap. induction entries as [| [k' y] entries IHentries];
      intros k x Hx.
    + clear IH. by apply elem_of_nil in Hx.
    + apply elem_of_cons in Hx as [Heq | Hx].
      * injection Heq as -> ->. apply IH.
      * clear IH. by eapply IHentries.
  - exact HMapNil.
  - apply HSlice. induction elems as [| y elems IHelems]; intros x Hx.
    + clear IH. by apply elem_of_nil in Hx.
    + apply elem_of_cons in Hx as [-> | Hx]; [apply IH |].
      clear IH. by apply IHelems.
  - exact HSliceNil.
  - apply HStruct. induction fields as [| [fd' y] fields IHfields];
      intros fd x Hx.
    + clear IH. by apply elem_of_nil in Hx.
    + apply elem_of_cons in Hx as [Heq | Hx].
      * injection Heq as -> ->. apply IH.
      * clear IH. by eapply IHfields.
Qed.

Lemma noRequired_bind {A} (m : outcome A) (k : A → outcome Errors) :
  (∀ a, m = Return a → noRequired (k a)) → noRequired (m ≫= k).
Proof. destruct m as [a | r]; intros Hk; simpl; [by apply Hk | done]. Qed.

Lemma validateKeys_noRequired newPath entries errs :
  clean errs →
  clean (validateKeys requiredValues validations checkRequired
                      newPath entries errs).
Proof.
  revert errs. induction entries as [| [key elem] entries IH];
    intros errs Herrs; simpl; [done |].
  apply IH. apply Forall_app. split; [done | apply validateLeaf_noRequired].
Qed.

Lemma Validate_fields_struct fields path :
  fieldsOf (StructOf fields) path
  = fieldLoop requiredValues validations checkRequired path fields [].
Proof. reflexivity. Qed.

(** The entry checks add no required-field error when the loop over the
    fields of the pointee adds none. *)
Lemma Validate_checks_noRequired structPtr path :
  (∀ e, structPtr = Pointer (Some e) → ∀ p, noRequired (fieldsOf e p)) →
  noRequired (checksOf structPtr path).
Proof.
  intros Hpointee. unfold Validate_checks.
  destruct structPtr as [| | | | | structElems | | |];
    try (simpl; repeat case_match; simpl; by repeat constructor).
  destruct (IsStruct (Data (Pointer structElems))); [by constructor |].
  destruct (IsPtr (Data (Pointer structElems))); simpl;
    [| by repeat constructor].
  destruct (IsStruct (ReflectValue structElems)); simpl;
    [| by repeat constructor].
  destruct (IsNilOrInvalidValue structElems); [by constructor |].
  destruct structElems as [e |]; [by apply Hpointee | done].
Qed.

Lemma elemLoop_noRequired path fd vs :
  (∀ x, x ∈ vs → ∀ p, noRequired (checksOf x p)) →
  ∀ i errs, clean errs →
    noRequired (elemLoop requiredValues validations checkRequired
                         path fd i vs errs).
Proof.
  induction vs as [| newValue vs IH]; intros Hvs i errs Herrs; simpl;
    [done |].
  assert (∀ x, x ∈ vs → ∀ p, noRequired (checksOf x p)) as Hrest.
  { intros x Hx. apply Hvs. by right. }
  apply noRequired_bind. intros _ _.
  destruct (IsStruct (Data newValue) || IsPtr (Data newValue)).
  - apply noRequired_bind. intros es Hes.
    apply IH; [done |]. apply Forall_app. split; [done |].
    assert (newValue ∈ newValue :: vs) as Hhere by (by left).
    pose proof (Hvs newValue Hhere
                    (path ++ [indexPathForSlice (Name fd) i])) as Hclean.
    by rewrite Hes in Hclean.
  - apply IH; [done |]. apply Forall_app.
    split; [done | apply validateLeaf_noRequired].
Qed.

(** What the induction carries for a value: neither the loop over its
    fields, nor the walker entered at it, nor the walker entered at one of
    its elements when it is a slice, yields a required-field error. *)
Abbreviation requiredFree v :=
  ((∀ p, noRequired (fieldsOf v p)) ∧
   (∀ p, noRequired (checksOf v p)) ∧
   (∀ elems x, v = SliceOf (Some elems) → x ∈ elems →
               ∀ p, noRequired (checksOf x p))).

Ltac leaf_step IH :=
  apply IH; apply Forall_app;
  split; [done | apply validateLeaf_noRequired].

Lemma fieldLoop_noRequired path fs :
  (∀ fd x, (fd, x) ∈ fs → requiredFree x) →
  ∀ errs, clean errs →
    noRequired (fieldLoop requiredValues validations checkRequired
                          path fs errs).
Proof.
  induction fs as [| [fd fieldValue] fs IH]; intros Hfs errs Herrs; simpl;
    [done |].
  assert (requiredFree fieldValue) as (Hfields & Hchecks & Helems).
  { apply (Hfs fd). by left. }
  assert (∀ errs, clean errs →
            noRequired (fieldLoop requiredValues validations checkRequired
                                  path fs errs)) as Hnext.
  { apply IH. intros fd' x Hx. apply (Hfs fd'). by right. }
  clear IH Hfs.
  destruct (bool_decide (Tag_json fd = Some "-")); [by apply Hnext |].
  destruct (fieldKind fd fieldValue);
    (* the kinds of the default case *)
    try (destruct (exported fd); [leaf_step Hnext | by apply Hnext]).
  - (* reflect.Map *)
    apply noRequired_bind. intros _ _. apply Hnext.
    apply validateKeys_noRequired, Forall_app.
    split; [done | apply validateLeaf_noRequired].
  - (* reflect.Ptr *)
    destruct (IsNilOrInvalidValue (Elem fieldValue)); [by apply Hnext |].
    destruct (isStructValue (Elem fieldValue)); [| leaf_step Hnext].
    apply noRequired_bind. intros _ _.
    apply noRequired_bind. intros es Hes. apply Hnext, Forall_app.
    split; [done |]. specialize (Hchecks (path ++ [Name fd])).
    by rewrite Hes in Hchecks.
  - (* reflect.Slice *)
    destruct fieldValue as [| | | | | | | [elems |] |]; try by apply Hnext.
    apply noRequired_bind. intros errs' Herrs'. apply Hnext.
    pose proof (elemLoop_noRequired path fd elems
                  (fun x Hx => Helems elems x eq_refl Hx) 0 errs Herrs)
      as Hloop.
    by rewrite Herrs' in Hloop.
  - (* reflect.Struct *)
    apply noRequired_bind. intros _ _.
    apply noRequired_bind. intros es Hes. apply Hnext, Forall_app.
    split; [done |].
    change (noRequired (Return es)). rewrite <- Hes.
    apply (Validate_checks_noRequired (Pointer (Some fieldValue))
             (path ++ [Name fd])).
    intros e He. injection He as <-. apply Hfields.
Qed.

Lemma requiredFree_all (v : value) : requiredFree v.
Proof.
  induction v as [| b | n | x | s | | t IHt | | entries IH | | elems IH
                 | fields IH] using go_value_ind.
  all: split; [| split];
    try (intros p; apply Validate_checks_noRequired; intros e He;
         by inversion He; subst; try apply IHt);
    try (intros elems' x' Heq; by inversion Heq);
    try (intros p; exact I).
  - intros elems' x Heq Hx. injection Heq as <-. apply (IH x Hx).
  - intros p. rewrite Validate_fields_struct.
    apply fieldLoop_noRequired; [apply IH | constructor].
Qed.

(** With the table the package ships, [Validate] returns no required-field
    error, for any rule table, flag, argument and path. *)
Lemma Validate_noRequired structPtr path :
  noRequired (Validate requiredValues validations checkRequired structPtr path).
Proof. apply requiredFree_all. Qed.

End RequiredProperties.

Section OperatorProperties.

Import Validate.

Context `{Helpers}.

Variable CheckValues : iface → list string.
Variables validateMeshConfig validateHub validateTag : ValidatorFunc.
Variables validateAddonComponents validateGatewayName : ValidatorFunc.

(** C10: the required-values table of the package is empty, so the guard
    of the required-field branch of [validateLeaf] is false at every path
    and, for every operator spec and both values of the flag,
    [CheckIstioOperatorSpec] returns no required-but-not-set error. *)
Theorem CheckIstioOperatorSpec_never_required
    (spec : option (list (StructField * value))) (checkRequiredFields : bool) :
  noRequired
    (CheckIstioOperatorSpec CheckValues validateMeshConfig validateHub
       validateTag validateAddonComponents validateGatewayName
       requiredValues spec checkRequiredFields)
  ∧ ∀ pstr : string,
      checkRequiredFields && default false (requiredValues !! pstr) = false.
Proof.
  split; [| apply required_guard_shipped].
  destruct spec as [fields |]; [| by constructor].
  unfold CheckIstioOperatorSpec. apply noRequired_bind. intros es Hes.
  change (noRequired (Return es)). rewrite <- Hes.
  apply Validate_noRequired.
Qed.

End OperatorProperties.

(** * More properties of the diff walker *)

Section DiffWalkShape.

Import Revision Report.

Variable Sprintf_q : string → string.
Variable Sprintf_v_float64 : Qc → string.

Abbreviation diffWalk := (diffWalk Sprintf_q Sprintf_v_float64).
Abbreviation rangeMap := (rangeMap Sprintf_q Sprintf_v_float64).
Abbreviation rangeSlice := (rangeSlice Sprintf_q Sprintf_v_float64).

Lemma covers_map_map v typedOrig :
  covers (VMap v) (VMap typedOrig) = coversMap covers typedOrig v.
Proof.
  induction v as [| [key vv] v IH]; [reflexivity |].
  change (covers (VMap ((key, vv) :: v)) (VMap typedOrig))
    with (covers vv (mapIndex typedOrig key)
          && covers (VMap v) (VMap typedOrig)).
  by rewrite IH.
Qed.

Lemma covers_slice_slice v typedOrig :
  covers (VSlice v) (VSlice typedOrig) = coversSlice covers v typedOrig.
Proof.
  revert typedOrig. induction v as [| vv v IH]; intros typedOrig;
    [reflexivity |].
  destruct typedOrig as [| o os]; [reflexivity |].
  change (covers (VSlice (vv :: v)) (VSlice (o :: os)))
    with (covers vv o && covers (VSlice v) (VSlice os)).
  by rewrite IH.
Qed.

Lemma covers_mismatch obj orig :
  (∀ v t, obj = VMap v → orig ≠ VMap t) →
  (∀ v t, obj = VSlice v → orig ≠ VSlice t) →
  covers obj orig = true.
Proof.
  intros Hmap Hslice. destruct obj, orig; try reflexivity.
  - by destruct (Hslice v v0).
  - by destruct (Hmap v v0).
Qed.

Lemma rangeMap_settled path separator typedOrig kvs :
  (∀ k x, (k, x) ∈ kvs →
     ∀ orig p s, settled (diffWalk p s x orig) (covers x orig)) →
  ∀ accum, settled (rangeMap path separator typedOrig kvs accum)
                   (coversMap covers typedOrig kvs).
Proof.
  induction kvs as [| [key vv] kvs IH]; intros Hall accum; simpl; [done |].
  pose proof (Hall key vv ltac:(by left) (mapIndex typedOrig key)
                (path +:+ separator +:+ pathComponent key) ".") as Hhead.
  destruct (diffWalk _ _ vv _) as [[childwalk err] | reason]; simpl in *.
  - destruct Hhead as [-> ->]. simpl. apply IH.
    intros k x Hin. apply (Hall k x). by right.
  - by rewrite Hhead.
Qed.

Lemma rangeSlice_settled path typedOrig vs :
  (∀ x, x ∈ vs → ∀ orig p s, settled (diffWalk p s x orig) (covers x orig)) →
  ∀ idx accum, settled (rangeSlice path typedOrig idx vs accum)
                       (coversSlice covers vs (drop idx typedOrig)).
Proof.
  induction vs as [| vv vs IH]; intros Hall idx accum; simpl; [done |].
  destruct (typedOrig !! idx) as [o |] eqn:Hidx.
  - rewrite (drop_S _ _ _ Hidx).
    pose proof (Hall vv ltac:(by left) o
                  (path +:+ "[" +:+ pretty idx +:+ "]") ".") as Hhead.
    destruct (diffWalk _ _ vv o) as [[indexwalk err] | reason]; simpl in *.
    + destruct Hhead as [-> ->]. simpl. apply IH.
      intros x Hx. apply Hall. by right.
    + by rewrite Hhead.
  - apply lookup_ge_None in Hidx. by rewrite drop_ge.
Qed.

Lemma diffWalk_settled obj :
  ∀ orig path separator,
    settled (diffWalk path separator obj orig) (covers obj orig).
Proof.
  induction obj as [| b | x | s | vs IH | kvs IH] using value_tree_ind;
    intros orig path separator.
  1-4: simpl; by destruct (_ && _).
  - destruct orig as [| | | | t |]; try done.
    rewrite diffWalk_slice_slice, covers_slice_slice.
    apply (rangeSlice_settled path t vs IH 0 []).
  - destruct orig as [| | | | | t]; try done.
    rewrite diffWalk_map_map, covers_map_map.
    by apply rangeMap_settled.
Qed.

(** X1: the walker never reports an error, and it returns exactly when the
    baseline has an element at every index of every sequence of the current
    tree that is compared with a baseline sequence; otherwise the call
    panics. *)
Theorem diffWalk_returns_iff_covered (path separator : string)
    (obj orig : value) :
  match diffWalk path separator obj orig with
  | Return (_, err) => err = None ∧ covers obj orig = true
  | Panic _ => covers obj orig = false
  end.
Proof. apply diffWalk_settled. Qed.

(** ** Paths and number of the records *)

Lemma prefix_refl s : String.prefix s s = true.
Proof. induction s as [| c s IH]; simpl; [done |]. by destruct (ascii_dec c c). Qed.

Lemma prefix_app s t : String.prefix s (s +:+ t) = true.
Proof.
  induction s as [| c s IH]; simpl; [by destruct t |].
  by destruct (ascii_dec c c).
Qed.

Lemma prefix_trans s t u :
  String.prefix s t = true → String.prefix t u = true →
  String.prefix s u = true.
Proof.
  revert t u. induction s as [| c s IH]; intros t u Hst Htu; simpl.
  - by destruct u.
  - destruct t as [| d t]; [done |]. destruct u as [| e u]; [done |].
    simpl in Hst, Htu.
    destruct (ascii_dec c d) as [-> |]; [| done].
    destruct (ascii_dec d e) as [-> |]; [| done].
    simpl. destruct (ascii_dec e e); [| done]. by apply (IH t u).
Qed.

Lemma under_leaf path d :
  under path 1 [] (Return ([mkIopDiff path d], None)).
Proof.
  exists [mkIopDiff path d]. repeat split; [| done].
  constructor; [apply prefix_refl | done].
Qed.

Lemma under_none path n accum err : under path n accum (Return (accum, err)).
Proof. exists []. rewrite app_nil_r. repeat split; [done | simpl; lia]. Qed.

Lemma rangeMap_under path separator typedOrig kvs :
  (∀ k x, (k, x) ∈ kvs →
     ∀ orig p s, under p (leaves x) [] (diffWalk p s x orig)) →
  ∀ accum, under path (leaves (VMap kvs)) accum
                 (rangeMap path separator typedOrig kvs accum).
Proof.
  induction kvs as [| [key vv] kvs IH]; intros Hall accum;
    [apply under_none |].
  change (leaves (VMap ((key, vv) :: kvs)))
    with (leaves vv + leaves (VMap kvs)).
  simpl.
  pose proof (Hall key vv ltac:(by left) (mapIndex typedOrig key)
                (path +:+ separator +:+ pathComponent key) ".") as Hhead.
  destruct (diffWalk _ _ vv _) as [[childwalk [e |]] | reason]; simpl in *;
    [exact (under_none _ _ _ None) | | done].
  destruct Hhead as (new & -> & Hnew & Hlen). simpl.
  specialize (IH (fun k x Hin => Hall k x ltac:(by right)) (accum ++ new)).
  destruct (rangeMap _ _ _ kvs _) as [[ds err] | reason]; simpl in *; [| done].
  destruct IH as (new' & -> & Hnew' & Hlen').
  exists (new ++ new'). rewrite app_assoc. split; [done |]. split.
  - apply Forall_app. split; [| done].
    eapply Forall_impl; [exact Hnew |]. intros d Hd. simpl in Hd.
    eapply prefix_trans; [| exact Hd]. apply prefix_app.
  - rewrite length_app. lia.
Qed.

Lemma rangeSlice_under path typedOrig vs :
  (∀ x, x ∈ vs → ∀ orig p s, under p (leaves x) [] (diffWalk p s x orig)) →
  ∀ idx accum, under path (leaves (VSlice vs)) accum
                     (rangeSlice path typedOrig idx vs accum).
Proof.
  induction vs as [| vv vs IH]; intros Hall idx accum; [apply under_none |].
  change (leaves (VSlice (vv :: vs))) with (leaves vv + leaves (VSlice vs)).
  simpl. destruct (typedOrig !! idx) as [o |]; [| done].
  pose proof (Hall vv ltac:(by left) o
                (path +:+ "[" +:+ pretty idx +:+ "]") ".") as Hhead.
  destruct (diffWalk _ _ vv o) as [[indexwalk [e |]] | reason]; simpl in *;
    [exact (under_none _ _ _ None) | | done].
  destruct Hhead as (new & -> & Hnew & Hlen). simpl.
  specialize (IH (fun x Hx => Hall x ltac:(by right)) (S idx) (accum ++ new)).
  destruct (rangeSlice _ _ _ vs _) as [[ds err] | reason]; simpl in *; [| done].
  destruct IH as (new' & -> & Hnew' & Hlen').
  exists (new ++ new'). rewrite app_assoc. split; [done |]. split.
  - apply Forall_app. split; [| done].
    eapply Forall_impl; [exact Hnew |]. intros d Hd. simpl in Hd.
    eapply prefix_trans; [| exact Hd]. apply prefix_app.
  - rewrite length_app. lia.
Qed.

Lemma diffWalk_under obj :
  ∀ orig path separator,
    under path (leaves obj) [] (diffWalk path separator obj orig).
Proof.
  induction obj as [| b | x | s | vs IH | kvs IH] using value_tree_ind;
    intros orig path separator.
  1-4: simpl; destruct (_ && _); [apply under_leaf | apply under_none].
  - destruct orig as [| | | | t |]; try apply under_none.
    rewrite diffWalk_slice_slice. by apply rangeSlice_under.
  - destruct orig as [| | | | | t]; try apply under_none.
    rewrite diffWalk_map_map. by apply rangeMap_under.
Qed.

(** X2: the path of every record returned starts with the path the walk was
    started at. *)
Theorem diffWalk_paths_extend_path (path separator : string)
    (obj orig : value) (ds : list iopDiff) (err : option string) :
  diffWalk path separator obj orig = Return (ds, err) →
  Forall (fun d => String.prefix path (Path d) = true) ds.
Proof.
  intros Hret. pose proof (diffWalk_under obj orig path separator) as Hu.
  rewrite Hret in Hu. by destruct Hu as (new & -> & Hnew & _).
Qed.

(** X3: there are at most as many records as the current tree has scalar
    leaves: a leaf gives one record or none, a map or a sequence none of its
    own. *)
Theorem diffWalk_at_most_one_record_per_leaf (path separator : string)
    (obj orig : value) (ds : list iopDiff) (err : option string) :
  diffWalk path separator obj orig = Return (ds, err) →
  (length ds ≤ leaves obj)%nat.
Proof.
  intros Hret. pose proof (diffWalk_under obj orig path separator) as Hu.
  rewrite Hret in Hu. by destruct Hu as (new & -> & _ & Hlen).
Qed.

End DiffWalkShape.

Section DiffWalkShapeWitnesses.

Import Revision Report.

Lemma diffWalk_paths_extend_path_witness :
  diffWalk quotePlain showRatio "spec" "." deepTree baselineTree
  = Return (deepTreeRecords, None)
  ∧ Forall (fun d => String.prefix "spec" (Path d) = true) deepTreeRecords.
Proof.
  split; [by vm_compute |].
  apply (diffWalk_paths_extend_path quotePlain showRatio "spec" "."
           deepTree baselineTree deepTreeRecords None).
  by vm_compute.
Defined.

Lemma diffWalk_at_most_one_record_per_leaf_witness :
  diffWalk quotePlain showRatio "spec" "." deepTree baselineTree
  = Return (deepTreeRecords, None)
  ∧ (length deepTreeRecords ≤ leaves deepTree)%nat.
Proof.
  split; [by vm_compute |].
  apply (diffWalk_at_most_one_record_per_leaf quotePlain showRatio "spec" "."
           deepTree baselineTree deepTreeRecords None).
  by vm_compute.
Defined.

End DiffWalkShapeWitnesses.

(** * Properties of the path components *)

Section PathComponentProperties.

Import Revision Report.

Lemma pathComponent_cons c s :
  pathComponent (String c s)
  = if Ascii.eqb c "." then EscapedPathSeparator +:+ pathComponent s
    else String c (pathComponent s).
Proof. reflexivity. Qed.

Lemma pathComponent_no_leading_separator s t :
  pathComponent s ≠ String "."%char t.
Proof.
  destruct s as [| c s]; [done |]. rewrite pathComponent_cons.
  destruct (Ascii.eqb_spec c "."%char) as [-> | Hc]; [done |].
  intros [= -> _]. by destruct Hc.
Qed.

Lemma pathComponent_injective a :
  ∀ b, pathComponent a = pathComponent b → a = b.
Proof.
  induction a as [| c a IH]; intros [| d b].
  - done.
  - rewrite pathComponent_cons. by destruct (Ascii.eqb d ".").
  - rewrite pathComponent_cons. by destruct (Ascii.eqb c ".").
  - rewrite !pathComponent_cons.
    destruct (Ascii.eqb_spec c "."%char) as [-> | Hc],
             (Ascii.eqb_spec d "."%char) as [-> | Hd]; simpl.
    + intros [= Heq]. by rewrite (IH b Heq).
    + intros [= <- Heq]. symmetry in Heq.
      by apply pathComponent_no_leading_separator in Heq.
    + intros [= -> Heq]. by apply pathComponent_no_leading_separator in Heq.
    + intros [= -> Heq]. by rewrite (IH b Heq).
Qed.

(** X4: escaping loses nothing: two keys with the same path component are
    the same key. *)
Theorem pathComponent_lossless (a b : string) :
  pathComponent a = pathComponent b → a = b.
Proof. apply pathComponent_injective. Qed.

(** X5: a key that holds no separator is its own path component, as the
    early return of the function has it. *)
Theorem pathComponent_without_separator (component : string) :
  Contains1 component "." = false → pathComponent component = component.
Proof.
  induction component as [| c s IH]; [done |].
  rewrite pathComponent_cons. simpl.
  destruct (Ascii.eqb c "."); [done |]. simpl. intros Hs. by rewrite IH.
Qed.

Lemma pathComponent_lossless_witness :
  pathComponent "istio.io/rev" = pathComponent "istio.io/rev"
  ∧ "istio.io/rev" = "istio.io/rev".
Proof.
  split; [reflexivity |].
  apply (pathComponent_lossless "istio.io/rev" "istio.io/rev"). reflexivity.
Defined.

Lemma pathComponent_without_separator_witness :
  Contains1 "ingressGateways" "." = false
  ∧ pathComponent "ingressGateways" = "ingressGateways".
Proof.
  split; [reflexivity |].
  apply (pathComponent_without_separator "ingressGateways"). reflexivity.
Defined.

End PathComponentProperties.

(** * Properties of the revision filters *)

Section FilterProperties.

Import Revision Report.

Variable IstioRev : string.

Lemma fold_left_filter_snoc {A} (P : A → bool) (l : list A) :
  ∀ acc, fold_left (fun acc x => if P x then acc ++ [x] else acc) l acc
         = acc ++ List.filter P l.
Proof.
  induction l as [| x l IH]; intros acc; simpl; [by rewrite app_nil_r |].
  rewrite IH. destruct (P x); [| done]. by rewrite <- app_assoc.
Qed.

Lemma getWebhooksWithRevision_filter webhooks revision :
  getWebhooksWithRevision IstioRev webhooks revision
  = List.filter
      (fun wh => String.eqb (label (wh_Labels wh) IstioRev) revision) webhooks.
Proof.
  unfold getWebhooksWithRevision.
  by rewrite (fold_left_filter_snoc
                (fun wh => String.eqb (label (wh_Labels wh) IstioRev) revision)).
Qed.

(** X6: the webhooks returned are those whose revision label is the
    revision asked for, in their order; a webhook without the label is
    returned exactly when the empty revision is asked for. *)
Theorem getWebhooksWithRevision_selects
    (webhooks : list MutatingWebhookConfiguration) (revision : string) :
  getWebhooksWithRevision IstioRev webhooks revision
  = List.filter
      (fun wh => bool_decide (default "" (wh_Labels wh !! IstioRev) = revision))
      webhooks
  ∧ ∀ wh, wh_Labels wh !! IstioRev = None →
          (In wh (getWebhooksWithRevision IstioRev webhooks revision)
           ↔ In wh webhooks ∧ revision = "").
Proof.
  rewrite getWebhooksWithRevision_filter. split.
  - induction webhooks as [| wh whs IH]; [done |]. simpl. rewrite IH.
    unfold label.
    destruct (String.eqb_spec (default "" (wh_Labels wh !! IstioRev)) revision)
      as [Heq | Hne].
    + by rewrite bool_decide_eq_true_2.
    + by rewrite bool_decide_eq_false_2.
  - intros wh Hnone. rewrite filter_In. unfold label. rewrite Hnone. simpl.
    split; intros [Hin Hrev]; (split; [done |]).
    + symmetry. by apply String.eqb_eq.
    + subst revision. reflexivity.
Qed.

Lemma getIOPWithRevision_loop_nil iops revision :
  In None iops →
  ∀ acc, getIOPWithRevision_loop iops revision acc
         = Panic "invalid memory address or nil pointer dereference".
Proof.
  induction iops as [| [iop |] iops IH]; intros Hin acc; simpl; [done | | done].
  destruct Hin as [Heq | Hin]; [done |].
  destruct (iop_Spec iop) as [spec |]; [| by apply IH].
  destruct (_ || _); by apply IH.
Qed.

(** The selection made by [getIOPWithRevision], read off its condition. *)
Abbreviation selected revision iop :=
  (∃ spec, iop_Spec iop = Some spec
           ∧ (spec_Revision spec = revision
              ∨ (revision = "default" ∧ spec_Revision spec = ""))).

Lemma getIOPWithRevision_loop_some iops revision :
  ¬ In None iops →
  ∀ acc, ∃ out,
    getIOPWithRevision_loop iops revision acc = Return (acc ++ out)
    ∧ ∀ iop, In iop out ↔ In (Some iop) iops ∧ selected revision iop.
Proof.
  induction iops as [| [iop |] iops IH]; intros Hnil acc; simpl.
  - exists []. rewrite app_nil_r. split; [done |]. intros iop. simpl. tauto.
  - assert (¬ In None iops) as Hnil' by (intros Hin; apply Hnil; by right).
    assert (∀ out' out,
              (∀ i, In i out ↔ In (Some i) iops ∧ selected revision i) →
              (out' = out ∧ ¬ selected revision iop
               ∨ out' = iop :: out ∧ selected revision iop) →
              ∀ i, In i out' ↔
                   (Some iop = Some i ∨ In (Some i) iops)
                   ∧ selected revision i) as Hstep.
    { intros out' out Hout [[-> Hno] | [-> Hyes]] i; simpl; rewrite Hout.
      - split; [tauto |]. intros [[[= ->] | Hin] Hsel]; [done | tauto].
      - split; [intros [-> | [Hin Hsel]]; tauto |].
        intros [[[= ->] | Hin] Hsel]; tauto. }
    destruct (iop_Spec iop) as [spec |] eqn:Hspec.
    + destruct (String.eqb_spec (spec_Revision spec) revision) as [Hrev | Hrev];
        simpl.
      * destruct (IH Hnil' (acc ++ [iop])) as (out & -> & Hout).
        exists (iop :: out). rewrite <- app_assoc. split; [done |].
        apply (Hstep _ out Hout). right. split; [done |].
        exists spec. tauto.
      * destruct (String.eqb_spec revision "default") as [Hdef | Hdef]; simpl.
        -- destruct (Nat.eqb_spec (String.length (spec_Revision spec)) 0)
             as [Hlen | Hlen].
           ++ destruct (IH Hnil' (acc ++ [iop])) as (out & -> & Hout).
              exists (iop :: out). rewrite <- app_assoc. split; [done |].
              apply (Hstep _ out Hout). right. split; [done |].
              exists spec. split; [done |]. right. split; [done |].
              by destruct (spec_Revision spec).
           ++ destruct (IH Hnil' acc) as (out & -> & Hout).
              exists out. split; [done |].
              apply (Hstep _ out Hout). left. split; [done |].
              intros (spec' & [= <-] & [Heq | [_ Heq]]); [done |].
              apply Hlen. by rewrite Heq.
        -- destruct (IH Hnil' acc) as (out & -> & Hout).
           exists out. split; [done |].
           apply (Hstep _ out Hout). left. split; [done |].
           intros (spec' & [= <-] & [Heq | [Heq _]]); done.
    + destruct (IH Hnil' acc) as (out & -> & Hout).
      exists out. split; [done |].
      apply (Hstep _ out Hout). left. split; [done |].
      by intros (spec' & [=] & _).
  - destruct Hnil. by left.
Qed.

(** X7: a nil element makes the call panic, wherever it stands.  Without
    one, the operators returned are those with a spec whose revision is the
    one asked for; when [default] is asked for, also those with a spec and
    an empty revision.  An operator without spec is never returned. *)
Theorem getIOPWithRevision_selection (iops : list (option IstioOperator))
    (revision : string) :
  (In None iops →
   getIOPWithRevision iops revision
   = Panic "invalid memory address or nil pointer dereference")
  ∧ (¬ In None iops →
     ∃ out, getIOPWithRevision iops revision = Return out
            ∧ ∀ iop, In iop out ↔
                     In (Some iop) iops
                     ∧ ∃ spec, iop_Spec iop = Some spec
                               ∧ (spec_Revision spec = revision
                                  ∨ (revision = "default"
                                     ∧ spec_Revision spec = ""))).
Proof.
  split.
  - intros Hin. by apply getIOPWithRevision_loop_nil.
  - intros Hnil. apply (getIOPWithRevision_loop_some iops revision Hnil []).
Qed.

End FilterProperties.

Section FilterWitnesses.

Import Revision Report.

Lemma getWebhooksWithRevision_selects_witness :
  wh_Labels (bareWebhook "istio-sidecar-injector") !! "istio.io/rev" = None
  ∧ In (bareWebhook "istio-sidecar-injector")
       (getWebhooksWithRevision "istio.io/rev" sampleWebhooks "").
Proof.
  split; [reflexivity |].
  destruct (getWebhooksWithRevision_selects "istio.io/rev" sampleWebhooks "")
    as [_ Hbare].
  apply (Hbare (bareWebhook "istio-sidecar-injector")); [reflexivity |].
  split; [right; left; reflexivity | reflexivity].
Defined.

Lemma getIOPWithRevision_selection_witness :
  In None sampleOperators
  ∧ getIOPWithRevision sampleOperators "default"
    = Panic "invalid memory address or nil pointer dereference"
  ∧ ¬ In None (tail sampleOperators)
  ∧ ∃ out, getIOPWithRevision (tail sampleOperators) "1-9" = Return out.
Proof.
  split; [by left |]. split.
  - destruct (getIOPWithRevision_selection sampleOperators "default")
      as [Hnil _].
    apply Hnil. by left.
  - assert (¬ In None (tail sampleOperators)) as Hsome.
    { simpl. intros [H | [H | [H | []]]]; discriminate H. }
    split; [exact Hsome |].
    destruct (getIOPWithRevision_selection (tail sampleOperators) "1-9")
      as [_ Hsel].
    destruct (Hsel Hsome) as (out & Hout & _). by exists out.
Defined.

End FilterWitnesses.

(** * Properties of the revision list *)

Section RevisionListProperties.

Import Revision Report.

Variable IstioRev : string.

Abbreviation recordWebhook := (recordWebhook IstioRev).
Abbreviation groupWebhooks := (groupWebhooks IstioRev).

Lemma renderWithDefault_not_empty s def : renderWithDefault s def ≠ "".
Proof.
  unfold renderWithDefault. destruct (String.eqb_spec s "") as [-> | Hs]; simpl;
    [discriminate | done].
Qed.

Lemma groupWebhooks_snoc webhooks hook :
  groupWebhooks (webhooks ++ [hook])
  = recordWebhook (groupWebhooks webhooks) hook.
Proof. unfold Report.groupWebhooks. by rewrite fold_left_app. Qed.

(** What holds of the description recorded for a revision. *)
Abbreviation recorded rev ri :=
  (Webhooks ri ≠ []
   ∧ IstioOperatorCRs ri = []
   ∧ Forall (fun wh => whi_Revision wh = rev) (Webhooks ri)
   ∧ Forall (fun wh => whi_Tag wh ≠ "") (tail (Webhooks ri))).

Lemma recordWebhook_recorded revisions hook :
  (∀ rev ri, revisions !! rev = Some ri → recorded rev ri) →
  ∀ rev ri, recordWebhook revisions hook !! rev = Some ri → recorded rev ri.
Proof.
  intros Hinv rev ri. unfold Report.recordWebhook.
  set (r := renderWithDefault _ _). set (tag := label _ istioTag).
  destruct (revisions !! r) as [ri0 |] eqn:Hr.
  - destruct (String.eqb_spec tag "") as [Htag | Htag]; simpl;
      [apply Hinv |].
    destruct (decide (r = rev)) as [<- | Hne].
    + rewrite lookup_insert_eq. intros [= <-]. simpl.
      destruct (Hinv r ri0 Hr) as (Hne & Hcrs & Hrev & Htags).
      repeat split.
      * by destruct (Webhooks ri0).
      * done.
      * apply Forall_app. split; [done |]. by constructor.
      * destruct (Webhooks ri0) as [| w ws]; [done |]. simpl in *.
        apply Forall_app. split; [done |]. by constructor.
    + rewrite lookup_insert_ne by done. apply Hinv.
  - destruct (decide (r = rev)) as [<- | Hne].
    + rewrite lookup_insert_eq. intros [= <-]. simpl.
      repeat split; [done | by repeat constructor | by constructor].
    + rewrite lookup_insert_ne by done. apply Hinv.
Qed.

Lemma recordWebhook_keys revisions hook rev :
  is_Some (recordWebhook revisions hook !! rev) ↔
  is_Some (revisions !! rev)
  ∨ renderWithDefault (label (wh_Labels hook) IstioRev) "default" = rev.
Proof.
  unfold Report.recordWebhook.
  set (r := renderWithDefault _ _). set (tag := label _ istioTag).
  destruct (revisions !! r) as [ri0 |] eqn:Hr.
  - destruct (negb _).
    + rewrite lookup_insert_is_Some. split.
      * intros [-> | [_ H]]; [by right | by left].
      * intros [H | ->]; [| by left].
        destruct (decide (r = rev)); [by left | by right].
    + split; [by left |]. intros [H | <-]; [done | by rewrite Hr].
  - rewrite lookup_insert_is_Some. split.
    + intros [-> | [_ H]]; [by right | by left].
    + intros [H | ->]; [| by left].
      destruct (decide (r = rev)); [by left | by right].
Qed.

(** X8: every revision found has at least one webhook recorded and no
    operator CR yet; the webhooks recorded for it carry its name, and only
    the first of them can have an empty tag. *)
Theorem groupWebhooks_recorded (webhooks : list MutatingWebhookConfiguration)
    (rev : string) (ri : revisionDescription) :
  groupWebhooks webhooks !! rev = Some ri →
  Webhooks ri ≠ []
  ∧ IstioOperatorCRs ri = []
  ∧ Forall (fun wh => whi_Revision wh = rev) (Webhooks ri)
  ∧ Forall (fun wh => whi_Tag wh ≠ "") (tail (Webhooks ri)).
Proof.
  revert rev ri. induction webhooks as [| hook webhooks IH] using rev_ind;
    intros rev ri.
  - unfold Report.groupWebhooks. simpl. by rewrite lookup_empty.
  - rewrite groupWebhooks_snoc. by apply recordWebhook_recorded.
Qed.

(** X9: the revisions found are the revision labels of the webhooks, a
    missing or empty label being listed as [<default>]; the empty string is
    never a revision of the list. *)
Theorem groupWebhooks_revisions (webhooks : list MutatingWebhookConfiguration)
    (rev : string) :
  (is_Some (groupWebhooks webhooks !! rev) ↔
   ∃ hook, In hook webhooks
           ∧ rev = match wh_Labels hook !! IstioRev with
                   | Some (String c s) => String c s
                   | _ => "<default>"
                   end)
  ∧ groupWebhooks webhooks !! "" = None.
Proof.
  assert (∀ hook,
            renderWithDefault (label (wh_Labels hook) IstioRev) "default"
            = match wh_Labels hook !! IstioRev with
              | Some (String c s) => String c s
              | _ => "<default>"
              end) as Hrender.
  { intros hook. unfold label. by destruct (_ !! _) as [[| c s] |]. }
  assert (∀ rev, is_Some (groupWebhooks webhooks !! rev) ↔
            ∃ hook, In hook webhooks
                    ∧ rev = renderWithDefault
                              (label (wh_Labels hook) IstioRev) "default")
    as Hkeys.
  { clear rev. induction webhooks as [| hook webhooks IH] using rev_ind;
      intros rev.
    - unfold Report.groupWebhooks. simpl. rewrite lookup_empty. split.
      + by intros [? ?].
      + by intros (? & [] & _).
    - rewrite groupWebhooks_snoc, recordWebhook_keys, IH. split.
      + intros [(h & Hin & ->) | <-].
        * exists h. split; [apply in_or_app; by left | done].
        * exists hook. split; [apply in_or_app; right; by left | done].
      + intros (h & Hin & ->). apply in_app_or in Hin as [Hin | [-> | []]].
        * left. by exists h.
        * by right. }
  split.
  - rewrite Hkeys. split; intros (hook & Hin & ->); exists hook;
      by rewrite Hrender in *.
  - apply eq_None_not_Some. rewrite Hkeys. intros (hook & _ & Heq).
    symmetry in Heq. by apply renderWithDefault_not_empty in Heq.
Qed.

Section Attach.

Variable getEnabledComponents : option IstioOperatorSpec → outcome (list string).
Variable getDiffs :
  IstioOperator → string → outcome (list iopDiff * option string).

Abbreviation attachIOPs := (attachIOPs getEnabledComponents getDiffs).

(** What the loop over the operator CRs leaves of a revision list. *)
Abbreviation extends revisions revs' :=
  (∀ rev,
     (is_Some (revs' !! rev) ↔ is_Some (revisions !! rev))
     ∧ ∀ ri ri', revisions !! rev = Some ri → revs' !! rev = Some ri' →
                 Webhooks ri' = Webhooks ri
                 ∧ IstioOperatorCRs ri `prefix_of` IstioOperatorCRs ri').

Lemma extends_refl (revisions : gmap string revisionDescription) :
  extends revisions revisions.
Proof.
  intros rev. split; [done |]. intros ri ri' Hri Hri'.
  rewrite Hri in Hri'. by injection Hri' as <-.
Qed.

Lemma extends_insert (revisions revs' : gmap string revisionDescription)
    rev0 ri0 iopInfo :
  revisions !! rev0 = Some ri0 →
  extends (<[rev0 := mkRevisionDescription
                       (IstioOperatorCRs ri0 ++ [iopInfo]) (Webhooks ri0)]>
             revisions) revs' →
  extends revisions revs'.
Proof.
  intros Hri0 Hext rev. destruct (Hext rev) as [Hkeys Hvals]. split.
  - rewrite Hkeys, lookup_insert_is_Some. split.
    + intros [<- | [_ H]]; [by rewrite Hri0 | done].
    + intros H. destruct (decide (rev0 = rev)); [by left | by right].
  - intros ri ri' Hri Hri'. destruct (decide (rev0 = rev)) as [<- | Hne].
    + rewrite Hri0 in Hri. injection Hri as <-.
      destruct (Hvals _ ri' (lookup_insert_eq _ _ _) Hri') as [Hw Hcrs].
      split; [done |]. simpl in Hcrs.
      etrans; [| exact Hcrs]. by apply prefix_app_r.
    + apply Hvals; [| done]. by rewrite lookup_insert_ne.
Qed.


End Attach.

End RevisionListProperties.

Section RevisionListWitnesses.

Import Revision Report.

Lemma groupWebhooks_recorded_witness :
  groupWebhooks "istio.io/rev" sampleWebhooks !! "1-9" = Some recorded19
  ∧ Webhooks recorded19 ≠ []
  ∧ IstioOperatorCRs recorded19 = []
  ∧ Forall (fun wh => whi_Revision wh = "1-9") (Webhooks recorded19)
  ∧ Forall (fun wh => whi_Tag wh ≠ "") (tail (Webhooks recorded19)).
Proof.
  split; [by vm_compute |].
  apply (groupWebhooks_recorded "istio.io/rev" sampleWebhooks "1-9" recorded19).
  by vm_compute.
Defined.


End RevisionListWitnesses.

(** * Properties of the revision table *)

Section TableProperties.

Import Revision Report.

Local Open Scope nat_scope.

Lemma max_is_max x y : max x y = Nat.max x y.
Proof. unfold max. destruct (Nat.ltb_spec y x); lia. Qed.

Lemma fold_left_snoc_map {A B} (f : A → B) (l : list A) :
  ∀ acc, fold_left (fun acc x => acc ++ [f x]) l acc = acc ++ (f <$> l).
Proof.
  induction l as [| x l IH]; intros acc; simpl; [by rewrite app_nil_r |].
  by rewrite IH, <- app_assoc.
Qed.

Lemma shownTags_fold ri :
  (let tags := fold_left (fun tags wh => tags ++ [whi_Tag wh]) (Webhooks ri) [] in
   if length tags =? 0 then tags ++ ["<no-tag>"] else tags)
  = shownTags ri.
Proof.
  simpl. rewrite (fold_left_snoc_map whi_Tag). simpl. unfold shownTags.
  by destruct (Webhooks ri).
Qed.

Lemma shownTags_not_empty ri : 1 ≤ length (shownTags ri).
Proof. unfold shownTags. destruct (Webhooks ri); simpl; lia. Qed.

Lemma cellAt_lookup (s : list string) i : cellAt s i = default "" (s !! i).
Proof.
  unfold cellAt. destruct (Nat.ltb_spec i (length s)) as [Hlt | Hge]; [done |].
  by rewrite (proj2 (lookup_ge_None s i) Hge).
Qed.

Section OneRevision.

Variables (verbose : bool) (rows0 : list row) (r : string) (tags : list string).

(** The rows of the revision written so far are [rowId] many, and their
    revision and tag cells are as expected. *)
Abbreviation laid st :=
  (∃ new, fst st = rows0 ++ new
          ∧ leadCells <$> new = expectedLead r tags <$> seq 0 (snd st)
          ∧ Forall (fun line => length line = if verbose then 6 else 5) new).

Lemma laid_step (st : list row * nat) line :
  laid st →
  leadCells line = expectedLead r tags (snd st) →
  length line = (if verbose then 6 else 5) →
  laid (fst st ++ [line], S (snd st)).
Proof.
  intros (new & Hrows & Hlead & Hlen) Hline Hcells.
  exists (new ++ [line]). split; [| split].
  - simpl. by rewrite Hrows, <- app_assoc.
  - change (snd (fst st ++ [line], S (snd st))) with (S (snd st)).
    rewrite seq_S, !fmap_app, Hlead. simpl. by rewrite Hline.
  - apply Forall_app. split; [done |]. by constructor.
Qed.

Lemma iopRow_laid q p comps custs st i :
  laid st → laid (iopRow verbose r tags q p comps custs st i).
Proof.
  intros Hst. destruct st as [rows rowId]. unfold iopRow.
  apply (laid_step (rows, rowId)); [done | |]; by destruct verbose.
Qed.

Lemma iopRow_rowId q p comps custs st i :
  snd (iopRow verbose r tags q p comps custs st i) = S (snd st).
Proof. by destruct st. Qed.

Lemma iopRow_fold q p comps custs (l : list nat) :
  ∀ st, laid st →
    laid (fold_left (iopRow verbose r tags q p comps custs) l st)
    ∧ snd (fold_left (iopRow verbose r tags q p comps custs) l st)
      = snd st + length l.
Proof.
  induction l as [| i l IH]; intros st Hst; simpl; [split; [done | lia] |].
  destruct (IH _ (iopRow_laid q p comps custs st i Hst)) as [Hlaid Hsnd].
  split; [done |]. rewrite Hsnd, iopRow_rowId. lia.
Qed.

Lemma iopRows_laid st iop :
  laid st →
  laid (iopRows verbose r tags st iop)
  ∧ snd (iopRows verbose r tags st iop) = snd st + crHeight iop.
Proof.
  intros Hst. unfold iopRows.
  match goal with
  | |- context [fold_left ?f (seq 0 ?n) st] =>
      destruct (iopRow_fold (cr_Namespace iop +:+ "/" +:+ cr_Name iop)
                  (effectiveProfile (cr_Profile iop)) (cr_Components iop)
                  (if length (fold_left
                                (fun customizations c =>
                                   customizations ++ [Path c +:+ "=" +:+ Value c])
                                (cr_Customizations iop) []) =? 0
                   then fold_left
                          (fun customizations c =>
                             customizations ++ [Path c +:+ "=" +:+ Value c])
                          (cr_Customizations iop) [] ++ ["<no-customization>"]
                   else fold_left
                          (fun customizations c =>
                             customizations ++ [Path c +:+ "=" +:+ Value c])
                          (cr_Customizations iop) [])
                  (seq 0 n) st Hst) as [Hlaid Hsnd]
  end.
  split; [exact Hlaid |]. rewrite Hsnd, length_seq, !max_is_max.
  rewrite (fold_left_snoc_map (fun c => Path c +:+ "=" +:+ Value c)).
  unfold crHeight. simpl.
  destruct (cr_Customizations iop) as [| c cs]; simpl; [lia |].
  rewrite length_fmap. lia.
Qed.

Lemma iopRows_fold (iops : list istioOperatorCRInfo) :
  ∀ st, laid st →
    laid (fold_left (iopRows verbose r tags) iops st)
    ∧ snd (fold_left (iopRows verbose r tags) iops st)
      = snd st + sum_list (crHeight <$> iops).
Proof.
  induction iops as [| iop iops IH]; intros st Hst; simpl;
    [split; [done | lia] |].
  destruct (iopRows_laid st iop Hst) as [Hlaid Hsnd].
  destruct (IH _ Hlaid) as [Hlaid' Hsnd']. split; [done |].
  rewrite Hsnd', Hsnd, <- Nat.add_assoc. reflexivity.
Qed.

Lemma tagRow_laid st : laid st → laid (tagRow verbose r tags st).
Proof.
  intros Hst. destruct st as [rows rowId]. unfold tagRow.
  apply (laid_step (rows, rowId)); [done | |]; destruct verbose; try done.
  all: unfold leadCells, expectedLead; simpl; by rewrite cellAt_lookup.
Qed.

Lemma tagRow_rowId st : snd (tagRow verbose r tags st) = S (snd st).
Proof. by destruct st. Qed.

Lemma tagRow_iter k :
  ∀ st, laid st →
    laid (Nat.iter k (tagRow verbose r tags) st)
    ∧ snd (Nat.iter k (tagRow verbose r tags) st) = snd st + k.
Proof.
  induction k as [| k IH]; intros st Hst; simpl; [split; [done | lia] |].
  destruct (IH st Hst) as [Hlaid Hsnd]. split; [by apply tagRow_laid |].
  rewrite tagRow_rowId, Hsnd. lia.
Qed.

Lemma tagRows_laid st :
  laid st →
  laid (tagRows verbose r tags st)
  ∧ snd (tagRows verbose r tags st) = Nat.max (length tags) (snd st).
Proof.
  intros Hst. unfold tagRows.
  destruct (tagRow_iter (length tags - snd st) st Hst) as [Hlaid Hsnd].
  split; [done |]. rewrite Hsnd. lia.
Qed.

End OneRevision.

Lemma revisionRows_laid verbose rows r ri :
  ∃ new,
    revisionRows verbose rows r ri = rows ++ new
    ∧ leadCells <$> new
      = expectedLead r (shownTags ri) <$> seq 0 (revisionHeight ri)
    ∧ Forall (fun line => length line = if verbose then 6 else 5) new.
Proof.
  unfold revisionRows. rewrite shownTags_fold.
  assert (∃ new, fst (rows, 0) = rows ++ new
                 ∧ leadCells <$> new
                   = expectedLead r (shownTags ri) <$> seq 0 (snd (rows, 0))
                 ∧ Forall (fun line => length line = if verbose then 6 else 5)
                          new) as Hstart.
  { exists []. simpl. by rewrite app_nil_r. }
  destruct (iopRows_fold verbose rows r (shownTags ri) (IstioOperatorCRs ri)
              (rows, 0) Hstart) as [Hlaid Hsnd].
  destruct (tagRows_laid verbose rows r (shownTags ri) _ Hlaid)
    as [(new & Hrows & Hlead & Hlen) Hsnd'].
  exists new. split; [done |]. split; [| done].
  rewrite Hlead, Hsnd', Hsnd. reflexivity.
Qed.

(** X11: in the rows of a revision, taken in order, the revision name
    stands in the first row and nowhere else, and the tag column holds the
    tags of the revision (or [<no-tag>]) in their order, each once, then
    blanks; the rows written before are left as they were. *)
Theorem revisionRows_revision_and_tag_cells (verbose : bool)
    (rows : list row) (r : string) (ri : revisionDescription) :
  take (length rows) (revisionRows verbose rows r ri) = rows
  ∧ leadCells <$> drop (length rows) (revisionRows verbose rows r ri)
    = (fun j => (if j =? 0 then r else "", default "" (shownTags ri !! j)))
        <$> seq 0 (revisionHeight ri).
Proof.
  destruct (revisionRows_laid verbose rows r ri) as (new & -> & Hlead & _).
  split.
  - by rewrite take_app_length.
  - rewrite drop_app_length, Hlead. apply list_fmap_ext.
    intros i j _. unfold expectedLead. by rewrite cellAt_lookup.
Qed.

Lemma printRevisionInfoTable_rows verbose revisions :
  ∀ rows,
    length (fold_left (fun rows '(r, ri) => revisionRows verbose rows r ri)
                      revisions rows)
    = length rows + sum_list ((fun e => revisionHeight e.2) <$> revisions)
    ∧ (Forall (fun line => length line = if verbose then 6 else 5) rows →
       Forall (fun line => length line = if verbose then 6 else 5)
              (fold_left (fun rows '(r, ri) => revisionRows verbose rows r ri)
                         revisions rows)).
Proof.
  induction revisions as [| [r ri] revisions IH]; intros rows; simpl;
    [split; [lia | done] |].
  destruct (revisionRows_laid verbose rows r ri) as (new & Hrows & Hlead & Hlen).
  destruct (IH (revisionRows verbose rows r ri)) as [IHlen IHcells].
  split.
  - rewrite IHlen, Hrows, length_app.
    apply (f_equal length) in Hlead. rewrite !length_fmap, length_seq in Hlead.
    rewrite Hlead, <- Nat.add_assoc. reflexivity.
  - intros Hall. apply IHcells. rewrite Hrows. apply Forall_app. by split.
Qed.

(** X12: the table has the header and, for each revision, as many rows as
    the larger of the number of its tags (one when it has none) and the sum
    over its operator CRs of the larger of one, the number of components and
    the number of customizations; so every revision has a row. *)
Theorem printRevisionInfoTable_row_count (verbose : bool)
    (revisions : list (string * revisionDescription)) :
  length (printRevisionInfoTable verbose revisions)
  = 1 + sum_list ((fun e => revisionHeight e.2) <$> revisions)
  ∧ Forall (fun e => 1 ≤ revisionHeight e.2) revisions.
Proof.
  split.
  - unfold printRevisionInfoTable.
    by rewrite (proj1 (printRevisionInfoTable_rows verbose revisions _)).
  - apply Forall_forall. intros [r ri] _. unfold revisionHeight. simpl.
    pose proof (shownTags_not_empty ri). lia.
Qed.


End TableProperties.

(** * Properties of the gateway address lookup *)

Section GatewayProperties.

Import Onboarding.

Variable resourceURI : string → string → string → string → string.
Variable SplitServiceAndNamespace : string → string → string * string.

Abbreviation getLoadBalancerAddress := (getLoadBalancerAddress resourceURI).
Abbreviation verifyMeshExpansionPorts := (verifyMeshExpansionPorts resourceURI).
Abbreviation scanGateways := (scanGateways SplitServiceAndNamespace).

Lemma find_none_blank {A} (f : A → string) (l : list A) :
  find (fun x => negb (String.eqb (f x) "")) l = None ↔
  Forall (fun x => f x = "") l.
Proof.
  induction l as [| x l IH]; simpl; [split; [constructor | done] |].
  destruct (String.eqb_spec (f x) "") as [Hx | Hx]; simpl.
  - rewrite IH. split; [by constructor | by inversion 1].
  - split; [done |]. by inversion 1.
Qed.

Lemma find_some_filled {A} (f : A → string) (l : list A) x :
  find (fun x => negb (String.eqb (f x) "")) l = Some x →
  In x l ∧ f x ≠ "".
Proof.
  intros Hfind. apply find_some in Hfind as [Hin Hx]. split; [done |].
  apply negb_true_iff in Hx. by apply String.eqb_neq.
Qed.

(** X14: the load balancer address of a service cannot be determined
    exactly when none of its ingress points has a host name or an IP
    address, in particular when it has no ingress point. *)
Theorem getLoadBalancerAddress_fails_iff_no_address (svc : Service) :
  is_Some (snd (getLoadBalancerAddress svc)) ↔
  Forall (fun endpoint => Hostname endpoint = "" ∧ IP endpoint = "")
         (Ingress svc).
Proof.
  unfold Onboarding.getLoadBalancerAddress.
  destruct (Nat.eqb_spec (length (Ingress svc)) 0) as [Hlen | _]; simpl.
  { apply length_zero_iff_nil in Hlen. rewrite Hlen. by split. }
  destruct (find (fun endpoint => negb (String.eqb (Hostname endpoint) ""))
                 (Ingress svc)) as [h |] eqn:Hhost; simpl.
  - apply find_some_filled in Hhost as [Hin Hne]. split.
    + by intros [? ?].
    + intros Hall. rewrite List.Forall_forall in Hall.
      destruct (Hall h Hin) as [Hh _]. done.
  - apply find_none_blank in Hhost.
    destruct (find (fun endpoint => negb (String.eqb (IP endpoint) ""))
                   (Ingress svc)) as [i |] eqn:Hip; simpl.
    + apply find_some_filled in Hip as [Hin Hne]. split.
      * by intros [? ?].
      * intros Hall. rewrite List.Forall_forall in Hall.
        destruct (Hall i Hin) as [_ Hi]. done.
    + apply find_none_blank in Hip. split; [| by eexists].
      intros _. rewrite List.Forall_forall in *. intros x Hx.
      split; [by apply Hhost | by apply Hip].
Qed.

(** X15: an address returned is not empty; it is the host name of an
    ingress point, or, only when no ingress point has a host name, the IP
    address of one. *)
Theorem getLoadBalancerAddress_prefers_hostname (svc : Service)
    (address : string) :
  getLoadBalancerAddress svc = (address, None) →
  address ≠ ""
  ∧ ((∃ endpoint, In endpoint (Ingress svc) ∧ Hostname endpoint = address)
     ∨ (Forall (fun endpoint => Hostname endpoint = "") (Ingress svc)
        ∧ ∃ endpoint, In endpoint (Ingress svc) ∧ IP endpoint = address)).
Proof.
  unfold Onboarding.getLoadBalancerAddress.
  destruct (length (Ingress svc) =? 0)%nat; [done |].
  destruct (find (fun endpoint => negb (String.eqb (Hostname endpoint) ""))
                 (Ingress svc)) as [h |] eqn:Hhost.
  - intros [= <-]. apply find_some_filled in Hhost as [Hin Hne].
    split; [done |]. left. by exists h.
  - apply find_none_blank in Hhost.
    destruct (find (fun endpoint => negb (String.eqb (IP endpoint) ""))
                   (Ingress svc)) as [i |] eqn:Hip; [| done].
    intros [= <-]. apply find_some_filled in Hip as [Hin Hne].
    split; [done |]. right. split; [done |]. by exists i.
Qed.

Lemma actualPorts_lookup (ports : list Z) (port : Z) :
  ∀ m : gmap Z bool,
    default false
      (fold_left (fun actualPorts p => <[p := true]> actualPorts) ports m
       !! port)
    = bool_decide (port ∈ ports) || default false (m !! port).
Proof.
  induction ports as [| p ports IH]; intros m; cbn [fold_left].
  - rewrite bool_decide_eq_false_2; [done |]. apply not_elem_of_nil.
  - rewrite IH. destruct (decide (p = port)) as [-> | Hne].
    + rewrite lookup_insert_eq.
      change (default false (Some true)) with true. rewrite orb_true_r.
      rewrite bool_decide_eq_true_2; [done | by left].
    + rewrite lookup_insert_ne by done. f_equal.
      apply bool_decide_ext. rewrite elem_of_cons.
      split; [by right | intros [Heq | Hin]; [by destruct Hne | done]].
Qed.

(** X16: a service passes the check of its ports exactly when one of its
    ports is 15443. *)
Theorem verifyMeshExpansionPorts_iff_port_15443 (svc : Service) :
  verifyMeshExpansionPorts svc = None ↔ In 15443%Z (Ports svc).
Proof.
  unfold Onboarding.verifyMeshExpansionPorts, meshExpansionPorts.
  rewrite actualPorts_lookup, lookup_empty, <- list_elem_of_In. simpl.
  rewrite orb_false_r.
  destruct (decide (15443%Z ∈ Ports svc)) as [Hin | Hout].
  - by rewrite bool_decide_eq_true_2.
  - by rewrite bool_decide_eq_false_2.
Qed.

Section Lookup.

Variable ServicesGet : string → string → Service + error.

Abbreviation getIstioIngressGatewayAddress :=
  (getIstioIngressGatewayAddress resourceURI SplitServiceAndNamespace
                                 ServicesGet).

(** X17: an address returned for the ingress gateway is not empty. *)
Theorem getIstioIngressGatewayAddress_not_empty (istioNamespace : string)
    (ingressService : string) (network : option (list Gateway))
    (address : string) :
  getIstioIngressGatewayAddress istioNamespace ingressService network
  = (address, None) →
  address ≠ "".
Proof.
  unfold Onboarding.getIstioIngressGatewayAddress.
  destruct (match network with
            | Some gateways => scanGateways gateways
            | None => ("", "", "", "")
            end) as [[[name namespace] source] scanned].
  destruct (if String.eqb name "" && String.eqb scanned ""
            then if negb (String.eqb ingressService "")
                 then (ingressService, istioNamespace,
                       "MeshConfig.IngressService")
                 else ("istio-ingressgateway", istioNamespace, "default")
            else (name, namespace, source)) as [[name' namespace'] source'].
  destruct (negb (String.eqb name' "")).
  - destruct (getIstioIngressGatewayService _ _ _ _) as [svc | err]; [| done].
    destruct (Onboarding.verifyMeshExpansionPorts _ svc); [done |].
    destruct (Onboarding.getLoadBalancerAddress _ svc) as [found [err |]];
      [done |].
    destruct (String.eqb_spec found ""); [done |]. by intros [= <-].
  - destruct (String.eqb_spec scanned ""); [done |]. by intros [= <-].
Qed.

End Lookup.

End GatewayProperties.

Section GatewayScanProperties.

Import Onboarding.

Variable resourceURI : string → string → string → string → string.
Variable SplitServiceAndNamespace : string → string → string * string.
Variable ServicesGet : string → string → Service + error.

Abbreviation scanGateway := (scanGateway SplitServiceAndNamespace).
Abbreviation scanGateways := (scanGateways SplitServiceAndNamespace).
Abbreviation getIstioIngressGatewayAddress :=
  (getIstioIngressGatewayAddress resourceURI SplitServiceAndNamespace
                                 ServicesGet).

Lemma scan_addresses_only gateways :
  Forall (fun gateway => GetRegistryServiceName gateway = "") gateways →
  ∀ name namespace source address,
    fold_left scanGateway gateways (name, namespace, source, address)
    = (name, namespace, source,
       if String.eqb address ""
       then from_option GetAddress ""
              (find (fun gateway => negb (String.eqb (GetAddress gateway) ""))
                    gateways)
       else address).
Proof.
  induction 1 as [| g gateways Hg _ IH]; intros name namespace source address;
    cbn [fold_left find].
  - by destruct (String.eqb_spec address "") as [-> |].
  - unfold Onboarding.scanGateway at 2. rewrite Hg.
    change (negb (String.eqb "" "") && String.eqb name "") with false.
    cbv iota. rewrite IH.
    destruct (String.eqb (GetAddress g) "") eqn:Hga; cbn [negb andb];
      [done |].
    destruct (String.eqb address "") eqn:Haddr; [| by rewrite Haddr].
    by rewrite Hga.
Qed.

(** X18: when no gateway of the network names a registry service and one
    has an address, the first such address is returned, whatever the
    cluster holds: no service is looked up. *)
Theorem getIstioIngressGatewayAddress_from_network_address
    (istioNamespace ingressService : string) (gateways : list Gateway)
    (gateway : Gateway) :
  Forall (fun gateway => GetRegistryServiceName gateway = "") gateways →
  find (fun gateway => negb (String.eqb (GetAddress gateway) "")) gateways
  = Some gateway →
  getIstioIngressGatewayAddress istioNamespace ingressService (Some gateways)
  = (GetAddress gateway, None).
Proof.
  intros Hnames Hfind. unfold Onboarding.getIstioIngressGatewayAddress.
  unfold Onboarding.scanGateways.
  destruct (find_some _ _ Hfind) as [_ Hne]. apply negb_true_iff in Hne.
  rewrite (scan_addresses_only gateways Hnames), Hfind.
  change (String.eqb "" "") with true. cbn [from_option andb negb].
  rewrite Hne. cbv beta iota.
  change (String.eqb "" "") with true. reflexivity.
Qed.

Lemma scanGateway_without_address name namespace source address address' g :
  fst (scanGateway (name, namespace, source, address') (withoutAddress g))
  = fst (scanGateway (name, namespace, source, address) g).
Proof.
  unfold Onboarding.scanGateway.
  cbn [withoutAddress GetRegistryServiceName GetAddress].
  destruct (negb (String.eqb (GetRegistryServiceName g) "")
            && String.eqb name ""); [| done].
  by destruct (SplitServiceAndNamespace _ _).
Qed.

Lemma scan_without_address gateways :
  ∀ name namespace source address address',
    fst (fold_left scanGateway (withoutAddress <$> gateways)
                   (name, namespace, source, address'))
    = fst (fold_left scanGateway gateways (name, namespace, source, address)).
Proof.
  induction gateways as [| g gateways IH];
    intros name namespace source address address'; [done |].
  cbn [fold_left fmap list_fmap].
  pose proof (scanGateway_without_address name namespace source address
                address' g) as Hstep.
  destruct (scanGateway (name, namespace, source, address) g)
    as [[[n1 ns1] s1] a1].
  destruct (scanGateway (name, namespace, source, address') (withoutAddress g))
    as [[[n2 ns2] s2] a2].
  simpl in Hstep. injection Hstep as -> -> ->. apply IH.
Qed.

(** X19: when the scan of the gateways of the network finds a service
    name, the addresses configured for the gateways play no part: the
    outcome is that of the same network without them, so a failing lookup
    of the service is an error although an address is configured. *)
Theorem getIstioIngressGatewayAddress_service_overrides_address
    (istioNamespace ingressService : string) (gateways : list Gateway) :
  fst (fst (fst (scanGateways gateways))) ≠ "" →
  getIstioIngressGatewayAddress istioNamespace ingressService (Some gateways)
  = getIstioIngressGatewayAddress istioNamespace ingressService
      (Some (withoutAddress <$> gateways)).
Proof.
  intros Hname. unfold Onboarding.getIstioIngressGatewayAddress.
  unfold Onboarding.scanGateways in *.
  pose proof (scan_without_address gateways "" "" "" "" "") as Hscan.
  destruct (fold_left scanGateway gateways ("", "", "", ""))
    as [[[name namespace] source] address].
  destruct (fold_left scanGateway (withoutAddress <$> gateways)
                      ("", "", "", ""))
    as [[[name' namespace'] source'] address'].
  simpl in Hscan, Hname. injection Hscan as -> -> ->.
  apply String.eqb_neq in Hname. rewrite Hname. cbn [andb negb].
  rewrite Hname. cbn [negb].
  destruct (getIstioIngressGatewayService _ _ _ _) as [svc | err]; [| done].
  destruct (verifyMeshExpansionPorts _ svc); [done |].
  by destruct (getLoadBalancerAddress _ svc) as [found [err |]].
Qed.

End GatewayScanProperties.

Section GatewayWitnesses.

Import Onboarding.

Lemma getLoadBalancerAddress_prefers_hostname_witness :
  getLoadBalancerAddress plainURI gatewayService = ("gw.example.com", None)
  ∧ "gw.example.com" ≠ "".
Proof.
  split; [reflexivity |].
  apply (getLoadBalancerAddress_prefers_hostname plainURI gatewayService
           "gw.example.com").
  reflexivity.
Defined.

Lemma getIstioIngressGatewayAddress_not_empty_witness :
  getIstioIngressGatewayAddress plainURI splitPlain oneService
    "istio-system" "" None
  = ("gw.example.com", None)
  ∧ "gw.example.com" ≠ "".
Proof.
  split; [by vm_compute |].
  apply (getIstioIngressGatewayAddress_not_empty plainURI splitPlain
           oneService "istio-system" "" None "gw.example.com").
  by vm_compute.
Defined.

Lemma getIstioIngressGatewayAddress_from_network_address_witness :
  getIstioIngressGatewayAddress plainURI splitPlain oneService
    "istio-system" "" (Some [mkGateway "" ""; mkGateway "" "192.0.2.7"])
  = ("192.0.2.7", None).
Proof.
  apply (getIstioIngressGatewayAddress_from_network_address plainURI
           splitPlain oneService "istio-system" ""
           [mkGateway "" ""; mkGateway "" "192.0.2.7"]
           (mkGateway "" "192.0.2.7")).
  - by repeat constructor.
  - reflexivity.
Defined.

Lemma getIstioIngressGatewayAddress_service_overrides_address_witness :
  getIstioIngressGatewayAddress plainURI splitPlain oneService
    "istio-system" "" (Some [mkGateway "missing-gateway" "192.0.2.7"])
  = getIstioIngressGatewayAddress plainURI splitPlain oneService
      "istio-system" "" (Some [mkGateway "missing-gateway" ""])
  ∧ snd (getIstioIngressGatewayAddress plainURI splitPlain oneService
           "istio-system" "" (Some [mkGateway "missing-gateway" "192.0.2.7"]))
    ≠ None.
Proof.
  split; [| by vm_compute].
  apply (getIstioIngressGatewayAddress_service_overrides_address plainURI
           splitPlain oneService "istio-system" ""
           [mkGateway "missing-gateway" "192.0.2.7"]).
  by vm_compute.
Defined.

End GatewayWitnesses.

(** * Properties of the workload identities *)

Section IdentityProperties.

Import Onboarding.

Variable resourceURI : string → string → string → string → string.
Variable CreateToken :
  list (string * string) → string → string → string + error.

Abbreviation loop :=
  (getIdentityForEachWorkload_loop resourceURI CreateToken).
Abbreviation getIdentityForEachWorkload :=
  (getIdentityForEachWorkload resourceURI CreateToken).

(** The first workload entry with a service account. *)
Abbreviation firstWith entries sa :=
  (find (fun w => String.eqb (ServiceAccount w) sa) entries).

Lemma firstWith_skip (done rest : list WorkloadEntry) sa :
  sa ∉ ServiceAccount <$> done →
  firstWith (done ++ rest) sa = firstWith rest sa.
Proof.
  induction done as [| w done IH]; intros Hnot; [done |]. simpl.
  destruct (String.eqb_spec (ServiceAccount w) sa) as [Heq | Hne].
  - destruct Hnot. rewrite fmap_cons, <- Heq. by left.
  - apply IH. intros Hin. apply Hnot. rewrite fmap_cons. by right.
Qed.

(** What holds of the map and the requests when the loop has gone through
    the entries [done]. *)
Abbreviation consistent done seen requests all :=
  ((∀ sa, is_Some (seen !! sa) ↔ sa ∈ ServiceAccount <$> done)
   ∧ (∀ sa, sa ∈ snd <$> requests → is_Some (seen !! sa))
   ∧ ("" ∉ (ServiceAccount <$> done))
   ∧ NoDup (snd <$> requests)
   ∧ ∀ ns sa, (ns, sa) ∈ requests →
              ∃ w, firstWith all sa = Some w ∧ we_Namespace w = ns).

Lemma loop_consistent (rest : list WorkloadEntry) :
  ∀ (done : list WorkloadEntry) seen requests,
    consistent done seen requests (done ++ rest) →
    NoDup (snd <$> snd (loop rest seen requests))
    ∧ (∀ ns sa, (ns, sa) ∈ snd (loop rest seen requests) →
                ∃ w, firstWith (done ++ rest) sa = Some w
                     ∧ we_Namespace w = ns)
    ∧ (∀ m err, fst (loop rest seen requests) = (Some m, err) →
                err = None
                ∧ (∀ sa, is_Some (m !! sa) ↔
                         sa ∈ ServiceAccount <$> (done ++ rest))
                ∧ "" ∉ ServiceAccount <$> (done ++ rest)).
Proof.
  induction rest as [| e rest IH];
    intros done seen requests (Hkeys & Hreq & Hblank & Hdup & Hfirst).
  - simpl. rewrite app_nil_r in *. split; [done |]. split; [done |].
    by intros m err [= <- <-].
  - assert (done ++ e :: rest = (done ++ [e]) ++ rest) as Hsplit
        by (by rewrite <- app_assoc).
    cbn [getIdentityForEachWorkload_loop].
    destruct (seen !! ServiceAccount e) as [identity |] eqn:Hseen.
    + rewrite Hsplit in *. apply IH. repeat split; try done.
      * intros Hsa. rewrite fmap_app, elem_of_app. left. by apply Hkeys.
      * rewrite fmap_app, elem_of_app. intros [Hin | Hin]; [by apply Hkeys |].
        apply list_elem_of_singleton in Hin as ->. by rewrite Hseen.
      * rewrite fmap_app, elem_of_app. intros [Hin | Hin]; [done |].
        apply list_elem_of_singleton in Hin.
        apply Hblank, Hkeys. rewrite Hin, Hseen. by eexists.
    + assert (ServiceAccount e ∉ ServiceAccount <$> done) as Hnew.
      { intros Hin. apply Hkeys in Hin. rewrite Hseen in Hin.
        by destruct Hin. }
      assert (NoDup (snd <$> requests
                             ++ [(we_Namespace e, ServiceAccount e)])
              ∧ ∀ ns sa,
                  (ns, sa) ∈ requests ++ [(we_Namespace e, ServiceAccount e)] →
                  ∃ w, firstWith (done ++ e :: rest) sa = Some w
                       ∧ we_Namespace w = ns) as [Hdup' Hfirst'].
      { split.
        - rewrite fmap_app. apply NoDup_app. split; [done |].
          split; [| apply NoDup_singleton].
          intros sa Hin Hsa. apply list_elem_of_singleton in Hsa.
          simpl in Hsa. subst sa. apply Hreq in Hin. rewrite Hseen in Hin.
          by destruct Hin.
        - intros ns sa Hin. apply elem_of_app in Hin as [Hin | Hin];
            [by apply Hfirst |].
          apply list_elem_of_singleton in Hin. injection Hin as -> ->.
          exists e. rewrite (firstWith_skip done (e :: rest) _ Hnew). simpl.
          by rewrite String.eqb_refl. }
      destruct (String.eqb_spec (ServiceAccount e) "") as [Hempty | Hfilled].
      { simpl. split; [done |]. split; [done |]. by intros m err [=]. }
      destruct (CreateToken requests (we_Namespace e) (ServiceAccount e))
        as [token | err].
      * rewrite Hsplit in *. apply IH. repeat split; try done.
        -- rewrite lookup_insert_is_Some, fmap_app, elem_of_app.
           intros [<- | [_ Hsa]]; [right; by apply list_elem_of_singleton |].
           left. by apply Hkeys.
        -- rewrite lookup_insert_is_Some, fmap_app, elem_of_app.
           intros [Hin | Hin].
           ++ destruct (decide (ServiceAccount e = sa)); [by left | right].
              split; [done |]. by apply Hkeys.
           ++ apply list_elem_of_singleton in Hin as ->. by left.
        -- intros sa. rewrite fmap_app, elem_of_app, lookup_insert_is_Some.
           intros [Hin | Hin].
           ++ destruct (decide (ServiceAccount e = sa)); [by left | right].
              split; [done |]. by apply Hreq.
           ++ apply list_elem_of_singleton in Hin. simpl in Hin. by left.
        -- rewrite fmap_app, elem_of_app. intros [Hin | Hin]; [done |].
           apply list_elem_of_singleton in Hin. by destruct Hfilled.
      * simpl. split; [done |]. split; [done |]. by intros m e' [=].
Qed.

Lemma loop_start entries :
  consistent ([] : list WorkloadEntry)
             (∅ : gmap string workloadIdentity)
             ([] : list (string * string)) entries.
Proof.
  split; [| split; [| split; [| split]]].
  - intros sa. rewrite lookup_empty. split.
    + by intros [? ?].
    + intros Hin. by apply elem_of_nil in Hin.
  - intros sa Hin. by apply elem_of_nil in Hin.
  - apply not_elem_of_nil.
  - constructor.
  - intros ns sa Hin. by apply elem_of_nil in Hin.
Qed.

(** X20: no two token requests are for the same service account name, and
    a request is made in the namespace of the first workload entry that has
    the service account, also when a later entry with that account lies in
    another namespace. *)
Theorem getIdentityForEachWorkload_one_request_per_account
    (workloadEntries : list WorkloadEntry) :
  NoDup (snd <$> snd (getIdentityForEachWorkload workloadEntries))
  ∧ ∀ namespace sa,
      (namespace, sa) ∈ snd (getIdentityForEachWorkload workloadEntries) →
      ∃ w, find (fun w => String.eqb (ServiceAccount w) sa) workloadEntries
           = Some w
           ∧ we_Namespace w = namespace.
Proof.
  destruct (loop_consistent workloadEntries [] ∅ [] (loop_start _))
    as (Hdup & Hfirst & _).
  by split.
Qed.

(** X21: when identities are returned, there is no error beside them, every
    workload entry has a service account, and the identities are those of
    the service accounts of the entries, no more and no less. *)
Theorem getIdentityForEachWorkload_covers_entries
    (workloadEntries : list WorkloadEntry)
    (identities : gmap string workloadIdentity) (err : option error) :
  fst (getIdentityForEachWorkload workloadEntries) = (Some identities, err) →
  err = None
  ∧ (∀ sa, is_Some (identities !! sa) ↔
           sa ∈ ServiceAccount <$> workloadEntries)
  ∧ "" ∉ ServiceAccount <$> workloadEntries.
Proof.
  destruct (loop_consistent workloadEntries [] ∅ [] (loop_start _))
    as (_ & _ & Hcover).
  apply Hcover.
Qed.

End IdentityProperties.

Section IdentityWitnesses.

Import Onboarding.

Lemma getIdentityForEachWorkload_one_request_per_account_witness :
  snd (getIdentityForEachWorkload plainURI tokenFor sampleWorkloads)
  = [("prod", "reviews"); ("prod", "ratings")]
  ∧ ∃ w, find (fun w => String.eqb (ServiceAccount w) "reviews")
              sampleWorkloads = Some w
         ∧ we_Namespace w = "prod".
Proof.
  split; [by vm_compute |].
  destruct (getIdentityForEachWorkload_one_request_per_account plainURI
              tokenFor sampleWorkloads) as [_ Hfirst].
  apply (Hfirst "prod" "reviews"). by left.
Defined.

Lemma getIdentityForEachWorkload_covers_entries_witness :
  ∃ identities,
    fst (getIdentityForEachWorkload plainURI tokenFor sampleWorkloads)
    = (Some identities, None)
    ∧ (∀ sa, is_Some (identities !! sa) ↔
             sa ∈ ServiceAccount <$> sampleWorkloads).
Proof.
  eexists. split; [by vm_compute |].
  eapply (getIdentityForEachWorkload_covers_entries plainURI tokenFor
            sampleWorkloads).
  by vm_compute.
Defined.

End IdentityWitnesses.

(** * Properties of the bundle delivery *)

Section WriteProperties.

Import Bootstrap Onboarding.

Variable write : list writeCall → string → N → list byte → option error.

Lemma append_assoc (a b c : string) : (a +:+ b) +:+ c = a +:+ (b +:+ c).
Proof.
  induction a as [| x a IH]; [reflexivity |].
  change (String x ((a +:+ b) +:+ c) = String x (a +:+ (b +:+ c))).
  by f_equal.
Qed.

Lemma scriptContent_processBundle bundle remoteDir :
  scriptContent (cmdsToExec (processBundle bundle remoteDir))
  = scriptHead
    +:+ "set +e" +:+ newline
    +:+ "docker rm --force " +:+ IstioProxyContainerName bundle
    +:+ newline +:+ newline
    +:+ "set -e" +:+ newline
    +:+ Join (launchArgs bundle remoteDir) " "
    +:+ newline +:+ newline.
Proof.
  unfold scriptContent, processBundle.
  cbn [cmdsToExec fold_left required cmd]. by rewrite !append_assoc.
Qed.

(** The call of [write] for a file of the bundle. *)
Abbreviation callOf file := (pathJoin "etc" (name file), perm file, data file).

Lemma writeFiles_calls (files : list fileToCopy) :
  ∀ calls, ∃ k,
    (k ≤ length files)%nat
    ∧ fst (writeFiles write files calls)
      = calls ++ take k ((fun file => callOf file) <$> files)
    ∧ (snd (writeFiles write files calls) = None → k = length files)
    ∧ (is_Some (snd (writeFiles write files calls)) → (1 ≤ k)%nat).
Proof.
  induction files as [| file files IH]; intros calls.
  - exists 0%nat. simpl. rewrite app_nil_r. repeat split; [done |].
    by intros [? ?].
  - cbn [writeFiles].
    destruct (write calls _ _ _) as [err |].
    + exists 1%nat. simpl. rewrite take_0.
      repeat split; [lia | done | done].
    + destruct (IH (calls ++ [callOf file])) as (k & Hk & Hcalls & Hnone & Hsome).
      exists (S k). rewrite Hcalls. simpl. rewrite <- app_assoc.
      repeat split; [lia | | lia]. intros Hn. by rewrite (Hnone Hn).
Qed.

Lemma expectedWrites_processBundle bundle :
  expectedWrites bundle
  = ((fun file => callOf file)
       <$> filesToCopy (processBundle bundle remoteDirOffline))
    ++ [(pathJoin "bin" "start-istio-proxy.sh", scriptFilePerm,
         String.list_byte_of_string
           (scriptContent (cmdsToExec (processBundle bundle remoteDirOffline))))].
Proof. by rewrite scriptContent_processBundle. Qed.


End WriteProperties.

Section CopyProperties.

Import Bootstrap Onboarding.

Variable client : list sshOp → sshOp → option error.
Variable path_Join : string → string → string.
Variable startIstioProxy : bool.

Abbreviation copyFiles := (copyFiles client path_Join).
Abbreviation execCommands := (execCommands client).
Abbreviation copyBootstrapBundle :=
  (copyBootstrapBundle client path_Join startIstioProxy).

Lemma substring_all s : String.substring 0 (String.length s) s = s.
Proof. induction s as [| c s IH]; simpl; [done |]. by rewrite IH. Qed.

Lemma madeDirs_mkdir ops d :
  madeDirs (ops ++ [Exec ("mkdir -p " +:+ d)]) = madeDirs ops ++ [d].
Proof.
  unfold madeDirs. rewrite omap_app. f_equal. cbv [String.append]. simpl.
  replace (String.prefix "" d) with true by (by destruct d).
  by rewrite Nat.sub_0_r, substring_all.
Qed.

Lemma madeDirs_copy ops data path perm :
  madeDirs (ops ++ [Copy data path perm]) = madeDirs ops.
Proof. unfold madeDirs. rewrite omap_app. simpl. by rewrite app_nil_r. Qed.

Lemma copiedFiles_mkdir ops command :
  copiedFiles (ops ++ [Exec command]) = copiedFiles ops.
Proof. unfold copiedFiles. rewrite omap_app. simpl. by rewrite app_nil_r. Qed.

Lemma copiedFiles_copy ops data path perm :
  copiedFiles (ops ++ [Copy data path perm])
  = copiedFiles ops ++ [(data, path, perm)].
Proof. unfold copiedFiles. by rewrite omap_app. Qed.

(** The copy of a file, as it is asked of the client. *)
Abbreviation copyOf file :=
  (data file, path_Join (dir file) (name file), perm file).

Lemma copyFiles_dirs (files : list fileToCopy) :
  ∀ (passed : list fileToCopy) (dirs : gmap string bool) ops,
    (∀ d, default false (dirs !! d) = true ↔ d ∈ madeDirs ops) →
    (∀ d, d ∈ madeDirs ops ↔ d ∈ dir <$> passed) →
    NoDup (madeDirs ops) →
    copiedFiles ops = (fun file => copyOf file) <$> passed →
    NoDup (madeDirs (fst (copyFiles files dirs ops)))
    ∧ (snd (copyFiles files dirs ops) = None →
       (∀ d, d ∈ madeDirs (fst (copyFiles files dirs ops)) ↔
             d ∈ dir <$> (passed ++ files))
       ∧ copiedFiles (fst (copyFiles files dirs ops))
         = (fun file => copyOf file) <$> (passed ++ files)).
Proof.
  induction files as [| file files IH];
    intros passed dirs ops Hdirs Hmade Hdup Hcopied.
  - simpl. rewrite app_nil_r. split; [done |]. intros _. by split.
  - assert (passed ++ file :: files = (passed ++ [file]) ++ files) as Hsplit
        by (by rewrite <- app_assoc).
    cbn [Onboarding.copyFiles]. unfold ask.
    destruct (default false (dirs !! dir file)) eqn:Hdir; cbn [negb].
    + destruct (client ops (Copy _ _ _)) as [err |].
      * simpl. rewrite madeDirs_copy. by split.
      * rewrite Hsplit. apply IH.
        -- intros d. by rewrite madeDirs_copy.
        -- intros d. rewrite madeDirs_copy, fmap_app, elem_of_app, Hmade.
           split; [by left |]. intros [Hin | Hin]; [done |].
           apply list_elem_of_singleton in Hin as ->.
           by apply Hmade, Hdirs.
        -- by rewrite madeDirs_copy.
        -- by rewrite copiedFiles_copy, Hcopied, fmap_app.
    + assert (dir file ∉ madeDirs ops) as Hnew.
      { intros Hin. apply Hdirs in Hin. by rewrite Hdir in Hin. }
      assert (NoDup (madeDirs ops ++ [dir file])) as Hdup'.
      { apply NoDup_app. split; [done |]. split; [| apply NoDup_singleton].
        intros d Hin Hd. apply list_elem_of_singleton in Hd as ->. done. }
      destruct (client ops (Exec _)) as [err |].
      * simpl. rewrite madeDirs_mkdir. by split.
      * destruct (client (ops ++ [Exec _]) (Copy _ _ _)) as [err |].
        -- simpl. rewrite madeDirs_copy, madeDirs_mkdir. by split.
        -- rewrite Hsplit. apply IH.
           ++ intros d. rewrite madeDirs_copy, madeDirs_mkdir, elem_of_app.
              rewrite list_elem_of_singleton, <- Hdirs.
              destruct (decide (dir file = d)) as [<- | Hne].
              ** rewrite lookup_insert_eq. simpl. split; [by right | done].
              ** rewrite lookup_insert_ne by done. split; [by left |].
                 intros [H | ->]; [done | by destruct Hne].
           ++ intros d. rewrite madeDirs_copy, madeDirs_mkdir.
              rewrite fmap_app, !elem_of_app, Hmade. done.
           ++ by rewrite madeDirs_copy, madeDirs_mkdir.
           ++ by rewrite copiedFiles_copy, copiedFiles_mkdir, Hcopied,
                fmap_app.
Qed.

(** X23: the file loop never makes a directory twice; when it ends without
    error, the directories made are those of the files, and the files have
    been copied in their order, each once, with their permissions. *)
Theorem copyFiles_makes_each_directory_once (files : list fileToCopy) :
  NoDup (madeDirs (fst (copyFiles files ∅ [])))
  ∧ (snd (copyFiles files ∅ []) = None →
     (∀ d, d ∈ madeDirs (fst (copyFiles files ∅ [])) ↔ d ∈ dir <$> files)
     ∧ copiedFiles (fst (copyFiles files ∅ []))
       = (fun file => (data file, path_Join (dir file) (name file), perm file))
           <$> files).
Proof.
  apply (copyFiles_dirs files [] ∅ []).
  - intros d. rewrite lookup_empty. simpl. split; [done |].
    intros Hin. by apply elem_of_nil in Hin.
  - done.
  - constructor.
  - done.
Qed.

Lemma execCommands_ran (commands : list cmdToExec) :
  ∀ ops, ∃ k,
    (k ≤ length commands)%nat
    ∧ fst (execCommands commands ops)
      = ops ++ ((fun command => Exec (cmd command)) <$> take k commands)
    ∧ (snd (execCommands commands ops) = None → k = length commands)
    ∧ (is_Some (snd (execCommands commands ops)) →
       ∃ command, commands !! (k - 1)%nat = Some command
                  ∧ (1 ≤ k)%nat
                  ∧ required command = true
                  ∧ snd (execCommands commands ops)
                    = client
                        (ops ++ ((fun command => Exec (cmd command))
                                   <$> take (k - 1) commands))
                        (Exec (cmd command))).
Proof.
  induction commands as [| command commands IH]; intros ops.
  - exists 0%nat. simpl. rewrite app_nil_r. repeat split; [done |].
    by intros [? ?].
  - cbn [Onboarding.execCommands]. unfold ask.
    assert (∃ k, (k ≤ length commands)%nat
              ∧ fst (execCommands commands (ops ++ [Exec (cmd command)]))
                = ops ++ ((fun command => Exec (cmd command))
                            <$> take (S k) (command :: commands))
              ∧ (snd (execCommands commands (ops ++ [Exec (cmd command)]))
                 = None → S k = length (command :: commands))
              ∧ (is_Some (snd (execCommands commands
                                 (ops ++ [Exec (cmd command)]))) →
                 ∃ c, (command :: commands) !! (S k - 1)%nat = Some c
                      ∧ (1 ≤ S k)%nat
                      ∧ required c = true
                      ∧ snd (execCommands commands
                               (ops ++ [Exec (cmd command)]))
                        = client
                            (ops ++ ((fun command => Exec (cmd command))
                                       <$> take (S k - 1)
                                             (command :: commands)))
                            (Exec (cmd c)))) as Hrest.
    { destruct (IH (ops ++ [Exec (cmd command)]))
        as (k & Hk & Hops & Hnone & Hsome).
      exists k. split; [done |]. split.
      { rewrite Hops. simpl. by rewrite <- app_assoc. }
      split; [intros Hn; simpl; by rewrite (Hnone Hn) |].
      intros Herr. destruct (Hsome Herr) as (c & Hc & Hk1 & Hreq & Hans).
      exists c. replace (S k - 1)%nat with (S (k - 1)) by lia.
      split; [done |]. split; [lia |]. split; [done |].
      rewrite Hans. simpl. by rewrite <- app_assoc. }
    destruct (client ops (Exec (cmd command))) as [err |] eqn:Hclient.
    + destruct (required command) eqn:Hreq.
      * exists 1%nat. simpl.
        split; [lia |]. split; [done |]. split; [done |].
        intros _. exists command. rewrite app_nil_r. by repeat split.
      * destruct Hrest as (k & Hk & Hrest). exists (S k).
        split; [simpl; lia | done].
    + destruct Hrest as (k & Hk & Hrest). exists (S k).
      split; [simpl; lia | done].
Qed.

(** X24: the commands are run in their order, and all of them unless one
    fails that is required: an error returned is the answer to a required
    command, the last one run.  A failing command that is not required
    stops nothing. *)
Theorem execCommands_stops_only_at_required (commands : list cmdToExec)
    (ops : list sshOp) :
  ∃ k,
    (k ≤ length commands)%nat
    ∧ fst (execCommands commands ops)
      = ops ++ ((fun command => Exec (cmd command)) <$> take k commands)
    ∧ (snd (execCommands commands ops) = None → k = length commands)
    ∧ (is_Some (snd (execCommands commands ops)) →
       ∃ command, commands !! (k - 1)%nat = Some command
                  ∧ (1 ≤ k)%nat
                  ∧ required command = true
                  ∧ snd (execCommands commands ops)
                    = client
                        (ops ++ ((fun command => Exec (cmd command))
                                   <$> take (k - 1) commands))
                        (Exec (cmd command))).
Proof. apply execCommands_ran. Qed.

Lemma copyFiles_moves (files : list fileToCopy) :
  ∀ dirs ops, ∃ new,
    fst (copyFiles files dirs ops) = ops ++ new ∧ Forall moves new.
Proof.
  induction files as [| file files IH]; intros dirs ops.
  - exists []. simpl. by rewrite app_nil_r.
  - cbn [Onboarding.copyFiles]. unfold ask.
    destruct (negb _).
    + destruct (client ops (Exec _)) as [err |].
      * exists [Exec ("mkdir -p " +:+ dir file)]. split; [done |].
        by repeat constructor.
      * destruct (client (ops ++ [Exec _]) (Copy _ _ _)) as [err |].
        -- eexists [_; _]. simpl. rewrite <- app_assoc. split; [done |].
           by repeat constructor.
        -- destruct (IH (<[dir file := true]> dirs)
                        ((ops ++ [Exec ("mkdir -p " +:+ dir file)])
                           ++ [Copy (data file)
                                    (path_Join (dir file) (name file))
                                    (perm file)]))
             as (new & -> & Hnew).
           eexists (_ :: _ :: new). rewrite <- !app_assoc. split; [done |].
           by repeat constructor.
    + destruct (client ops (Copy _ _ _)) as [err |].
      * eexists [_]. split; [done |]. by repeat constructor.
      * destruct (IH dirs
                     (ops ++ [Copy (data file)
                                   (path_Join (dir file) (name file))
                                   (perm file)]))
          as (new & -> & Hnew).
        eexists (_ :: new). rewrite <- !app_assoc. split; [done |].
        by repeat constructor.
Qed.

(** X25: the connection is dialled first; when dialling fails nothing else
    is asked of the client, not even to close; when it succeeds the client
    is closed last, whatever happens in between, and in between only
    commands are run and files copied. *)
Theorem copyBootstrapBundle_dials_first_closes_last (address username : string)
    (items : bootstrapItems) :
  (is_Some (client [] (Dial address username)) →
   copyBootstrapBundle address username items
   = ([Dial address username], client [] (Dial address username)))
  ∧ (client [] (Dial address username) = None →
     ∃ between,
       fst (copyBootstrapBundle address username items)
       = Dial address username :: between ++ [Close]
       ∧ Forall moves between).
Proof.
  unfold Onboarding.copyBootstrapBundle, ask. split.
  - intros [err Herr]. by rewrite Herr.
  - intros ->.
    destruct (copyFiles_moves (filesToCopy items) ∅ ([] ++ [Dial address username]))
      as (new & Hnew & Hmoves).
    destruct (Onboarding.copyFiles _ _ _ _ _) as [ops [err |]];
      simpl in Hnew; subst ops.
    + exists new. by split.
    + destruct startIstioProxy; [| exists new; by split].
      destruct (execCommands_ran (cmdsToExec items)
                  (Dial address username :: new)) as (k & _ & Hops & _).
      destruct (Onboarding.execCommands _ _ _) as [ops err].
      simpl in Hops. subst ops.
      eexists (new ++ _). simpl. split; [reflexivity |].
      apply Forall_app. split; [done |].
      apply Forall_fmap, Forall_true. by intros c.
Qed.

End CopyProperties.

Section DeliveryWitnesses.

Import Bootstrap Onboarding Samples.


Lemma copyFiles_makes_each_directory_once_witness :
  snd (copyFiles failingRm pathJoin
         (filesToCopy (processBundle testBundle "/tmp/istio-proxy")) ∅ [])
  = None
  ∧ ∀ d, d ∈ madeDirs
               (fst (copyFiles failingRm pathJoin
                       (filesToCopy (processBundle testBundle "/tmp/istio-proxy"))
                       ∅ []))
         ↔ d ∈ dir <$> filesToCopy (processBundle testBundle "/tmp/istio-proxy").
Proof.
  split; [reflexivity |].
  apply (copyFiles_makes_each_directory_once failingRm pathJoin
           (filesToCopy (processBundle testBundle "/tmp/istio-proxy"))).
  reflexivity.
Defined.

Lemma execCommands_stops_only_at_required_witness :
  snd (execCommands failingRm
         (cmdsToExec (processBundle testBundle "/tmp/istio-proxy")) [])
  = None
  ∧ failingRm [] (Exec ("docker rm --force " +:+ "istio-proxy"))
    = Some "no such container"
  ∧ ∃ k, fst (execCommands failingRm
                (cmdsToExec (processBundle testBundle "/tmp/istio-proxy")) [])
         = (fun command => Exec (cmd command))
             <$> take k (cmdsToExec (processBundle testBundle "/tmp/istio-proxy"))
         ∧ k = 2%nat.
Proof.
  split; [reflexivity |]. split; [reflexivity |].
  destruct (execCommands_stops_only_at_required failingRm
              (cmdsToExec (processBundle testBundle "/tmp/istio-proxy")) [])
    as (k & _ & Hops & Hnone & _).
  exists k. split; [exact Hops |]. apply Hnone. reflexivity.
Defined.

Lemma copyBootstrapBundle_dials_first_closes_last_witness :
  failingRm [] (Dial "10.0.0.5:22" "istio") = None
  ∧ ∃ between,
      fst (copyBootstrapBundle failingRm pathJoin true "10.0.0.5:22" "istio"
             (processBundle testBundle "/tmp/istio-proxy"))
      = Dial "10.0.0.5:22" "istio" :: between ++ [Close]
      ∧ Forall moves between.
Proof.
  split; [reflexivity |].
  destruct (copyBootstrapBundle_dials_first_closes_last failingRm pathJoin true
              "10.0.0.5:22" "istio"
              (processBundle testBundle "/tmp/istio-proxy")) as [_ Hclose].
  apply Hclose. reflexivity.
Defined.

End DeliveryWitnesses.

(** * More properties of the sync-status printer *)

Section SyncStatusProperties.

Import Pilot SyncReport.

Lemma getSyncStatus_snoc configs config :
  getSyncStatus (configs ++ [config])
  = let '(cds, lds, eds, rds) := getSyncStatus configs in
    match PerXdsConfig_oneof config with
    | PerXdsConfig_ListenerConfig => (cds, Status_String config, eds, rds)
    | PerXdsConfig_ClusterConfig => (Status_String config, lds, eds, rds)
    | PerXdsConfig_RouteConfig => (cds, lds, eds, Status_String config)
    | PerXdsConfig_EndpointConfig => (cds, lds, Status_String config, rds)
    | PerXdsConfig_ScopedRouteConfig => (cds, lds, eds, rds)
    | PerXdsConfig_unexpected => (cds, lds, eds, rds)
    end.
Proof.
  unfold getSyncStatus. rewrite fold_left_app. simpl.
  by destruct (fold_left _ configs _) as [[[cds lds] eds] rds].
Qed.

Lemma statusOfLast_snoc kind configs config :
  statusOfLast kind (configs ++ [config])
  = if kind (PerXdsConfig_oneof config) then Status_String config
    else statusOfLast kind configs.
Proof.
  unfold statusOfLast. rewrite List.filter_app. simpl.
  destruct (kind (PerXdsConfig_oneof config)).
  - by rewrite last_snoc.
  - by rewrite app_nil_r.
Qed.

(** X26: each of the four statuses is that of the last configuration of
    its kind in the list, and empty when the list has none of that kind;
    scoped-route and unexpected configurations change nothing. *)
Theorem getSyncStatus_last_of_each_kind (configs : list PerXdsConfig) :
  getSyncStatus configs
  = (statusOfLast isCluster configs, statusOfLast isListener configs,
     statusOfLast isEndpoint configs, statusOfLast isRoute configs).
Proof.
  induction configs as [| config configs IH] using rev_ind; [reflexivity |].
  rewrite getSyncStatus_snoc, IH, !statusOfLast_snoc.
  by destruct (PerXdsConfig_oneof config).
Qed.

End SyncStatusProperties.

Section PrintAllProperties.

Import Pilot SyncReport.

Context {W : Type} `{!IoWriter W}.
Variable UnmarshalTo : Any → ClientConfig + string.
Variable CpInfo : DiscoveryResponse → string * string.
Variable sortByProxyID : list xdsWriterStatus → list xdsWriterStatus.
Variable tabformat : string → list byte.

Abbreviation setupResource := (setupResource UnmarshalTo CpInfo sortByProxyID).
Abbreviation setupStatusPrint :=
  (setupStatusPrint UnmarshalTo CpInfo sortByProxyID).
Abbreviation PrintAll := (PrintAll UnmarshalTo CpInfo sortByProxyID tabformat).

(** Without a table writer there is no row to print, and an error is a
    decoding error. *)
Abbreviation sound st :=
  ((tw st = None → fullStatus st = [])
   ∧ ∀ err, stop st = Some err →
            ∃ resource e,
              UnmarshalTo resource = inr e
              ∧ err = "could not unmarshal ClientConfig: " +:+ e).

Lemma setupResource_sound ndrs dr (st : setup) resource :
  sound st → sound (setupResource ndrs dr st resource).
Proof.
  intros [Htw Hstop]. unfold Pilot.setupResource.
  destruct (stop st) as [err |] eqn:Hst.
  - split; [done |]. intros err' Herr. apply Hstop. by rewrite <- Herr.
  - destruct (String.eqb (TypeUrl resource) ClientConfigTypeUrl).
    + destruct (UnmarshalTo resource) as [clientConfig | e] eqn:Hdecode.
      * destruct (getSyncStatus _) as [[[cds lds] eds] rds].
        rewrite length_app, Nat.add_comm. simpl. by split.
      * simpl. split; [done |]. intros err [= <-]. by exists resource, e.
    + simpl. by split.
Qed.

Lemma setupResources_sound ndrs dr resources :
  ∀ st : setup, sound st →
    sound (fold_left (setupResource ndrs dr) resources st).
Proof.
  induction resources as [| resource resources IH]; intros st Hst; [done |].
  simpl. by apply IH, setupResource_sound.
Qed.

Lemma setupStatusPrint_sound (out : W) drs :
  sound (setupStatusPrint out drs).
Proof.
  unfold Pilot.setupStatusPrint. generalize (length drs) as ndrs. intros ndrs.
  assert (sound (mkSetup out None [] None)) as Hstart by (by split).
  revert Hstart. generalize (mkSetup out None [] None) as st.
  induction drs as [| [key dr] drs IH]; intros st Hst; [done |].
  simpl. by apply IH, setupResources_sound.
Qed.

Lemma printRows_returns t rows :
  ∃ t', printRows (Some t) rows = Return (Some t', None).
Proof.
  revert t. induction rows as [| row rows IH]; intros t; [by exists t |].
  simpl. apply IH.
Qed.

(** X27: printing never panics: the table writer is there whenever a row
    is to be printed, so the call returns, for every decoder, sink and
    list of responses. *)
Theorem PrintAll_returns (out : W) (statuses : list (string * DiscoveryResponse)) :
  ∃ result, PrintAll out statuses = Return result.
Proof.
  unfold Pilot.PrintAll.
  destruct (setupStatusPrint_sound out statuses) as [Htw _].
  destruct (stop _) as [err |]; [by eexists |].
  destruct (tw _) as [t |].
  - destruct (printRows_returns t (fullStatus (setupStatusPrint out statuses)))
      as [t' ->].
    simpl. by eexists.
  - rewrite (Htw eq_refl). simpl. by eexists.
Qed.

(** X28: the only error of the set-up is that a ClientConfig resource
    could not be decoded; the error that no proxy was found is never
    returned, the list of rows being checked right after a row was added
    to it. *)
Theorem setupStatusPrint_error_is_decoding_error (out : W)
    (drs : list (string * DiscoveryResponse)) (err : string) :
  stop (setupStatusPrint out drs) = Some err →
  ∃ resource e,
    UnmarshalTo resource = inr e
    ∧ err = "could not unmarshal ClientConfig: " +:+ e.
Proof. apply setupStatusPrint_sound. Qed.

End PrintAllProperties.

Section PrintAllWitnesses.

Import Pilot SyncReport.

Lemma setupStatusPrint_error_is_decoding_error_witness :
  stop (setupStatusPrint (W := Recorder) rejectAll noCpInfo id []
          [("istiod-0", oneClientConfig)])
  = Some ("could not unmarshal ClientConfig: "
          +:+ "proto: cannot parse invalid wire-format data")
  ∧ ∃ resource e, rejectAll resource = inr e.
Proof.
  split; [reflexivity |].
  destruct (setupStatusPrint_error_is_decoding_error (W := Recorder)
              rejectAll noCpInfo id [] [("istiod-0", oneClientConfig)]
              ("could not unmarshal ClientConfig: "
               +:+ "proto: cannot parse invalid wire-format data")
              eq_refl) as (resource & e & Hdecode & _).
  by exists resource, e.
Defined.

End PrintAllWitnesses.

(** * The flag of the validation walker *)

Section FlagProperties.

Import Validate.

Context `{Helpers}.

Variable validations : gmap string ValidatorFunc.

(** X29: with the table of required values the package ships, the flag
    [checkRequired] has no effect on the walker: for every rule table,
    argument and path the result with the flag set is the result without
    it, errors, their order and panics included.  The flag is read in one
    place, the guard of the required-field branch of [validateLeaf], and
    the lookup in the empty table makes that guard false either way. *)
Theorem Validate_flag_has_no_effect (structPtr : value) (path : Path) :
  Validate requiredValues validations true structPtr path
  = Validate requiredValues validations false structPtr path.
Proof. reflexivity. Qed.

End FlagProperties.

(** * Properties of the token policy detection *)

Section DetectProperties.

Import Util.

Variables Config DiscoveryClient : Type.
Variable NewDiscoveryClientForConfig : Config → DiscoveryClient + discoveryError.
Variable ServerGroupsAndResources :
  DiscoveryClient → list APIResourceList * option discoveryError.

Abbreviation DetectSupportedJWTPolicy :=
  (DetectSupportedJWTPolicy Config DiscoveryClient
     NewDiscoveryClientForConfig ServerGroupsAndResources).

Lemma supportsTokenRequest_iff s :
  supportsTokenRequest s = true ↔
  ∃ res, In res s ∧ In "serviceaccounts/token" (APIResources res).
Proof.
  unfold supportsTokenRequest. rewrite existsb_exists. split.
  - intros (res & Hres & Hapi). apply existsb_exists in Hapi as (api & Hin & Heq).
    apply String.eqb_eq in Heq as ->. by exists res.
  - intros (res & Hres & Hapi). exists res. split; [done |].
    apply existsb_exists. by exists "serviceaccounts/token".
Qed.

(** X30: an error comes with the empty policy.  Without error the policy
    is one of the two known ones, and it is third-party exactly when no
    configuration was given or a resource named [serviceaccounts/token] is
    among those discovered; this also when discovery failed for groups
    none of which is [authentication.k8s.io/v1], the resources discovered
    for the other groups being used. *)
Theorem DetectSupportedJWTPolicy_policy (config : option Config) :
  (is_Some (snd (DetectSupportedJWTPolicy config)) →
   fst (DetectSupportedJWTPolicy config) = "")
  ∧ (snd (DetectSupportedJWTPolicy config) = None →
     (fst (DetectSupportedJWTPolicy config) = ThirdPartyJWT
      ∨ fst (DetectSupportedJWTPolicy config) = FirstPartyJWT)
     ∧ (fst (DetectSupportedJWTPolicy config) = ThirdPartyJWT ↔
        config = None
        ∨ ∃ c d res,
            config = Some c
            ∧ NewDiscoveryClientForConfig c = inl d
            ∧ In res (fst (ServerGroupsAndResources d))
            ∧ In "serviceaccounts/token" (APIResources res)))
  ∧ (∀ c d s Groups,
       config = Some c →
       NewDiscoveryClientForConfig c = inl d →
       ServerGroupsAndResources d = (s, Some (ErrGroupDiscoveryFailed Groups)) →
       ¬ In ("authentication.k8s.io", "v1") Groups →
       snd (DetectSupportedJWTPolicy config) = None).
Proof.
  assert (∀ c d s,
            NewDiscoveryClientForConfig c = inl d →
            fst (ServerGroupsAndResources d) = s →
            ((if supportsTokenRequest s then (ThirdPartyJWT, None)
              else (FirstPartyJWT, @None discoveryError)).1 = ThirdPartyJWT
             ∨ (if supportsTokenRequest s then (ThirdPartyJWT, None)
                else (FirstPartyJWT, @None discoveryError)).1 = FirstPartyJWT)
            ∧ ((if supportsTokenRequest s then (ThirdPartyJWT, None)
                else (FirstPartyJWT, @None discoveryError)).1 = ThirdPartyJWT ↔
               Some c = None
               ∨ ∃ c' d' res,
                   Some c = Some c'
                   ∧ NewDiscoveryClientForConfig c' = inl d'
                   ∧ In res (fst (ServerGroupsAndResources d'))
                   ∧ In "serviceaccounts/token" (APIResources res)))
    as Hdetect.
  { intros c d s Hd Hs.
    destruct (supportsTokenRequest s) eqn:Htoken; simpl.
    - split; [by left |]. split; [| done]. intros _. right.
      apply supportsTokenRequest_iff in Htoken as (res & Hres & Hapi).
      exists c, d, res. by rewrite Hs.
    - split; [by right |]. split; [done |].
      intros [Hnone | (c' & d' & res & [= <-] & Hd' & Hres & Hapi)]; [done |].
      rewrite Hd in Hd'. injection Hd' as <-. rewrite Hs in Hres.
      assert (supportsTokenRequest s = true) as Htrue
          by (apply supportsTokenRequest_iff; by exists res).
      by rewrite Htoken in Htrue. }
  unfold Util.DetectSupportedJWTPolicy.
  destruct config as [c |]; simpl.
  2: { split; [by intros [? ?] |]. split; [| done].
       intros _. split; [by left |]. split; [by left | done]. }
  destruct (NewDiscoveryClientForConfig c) as [d | err] eqn:Hd; simpl.
  2: { split; [done |]. split; [done |].
       intros c' d' s Groups [= <-] Hd'. rewrite Hd in Hd'. discriminate Hd'. }
  destruct (ServerGroupsAndResources d) as [s [[Groups | msg] |]] eqn:Hs.
  - destruct (existsb _ Groups) eqn:Hauth; simpl.
    + split; [done |]. split; [done |].
      intros c' d' s' Groups' [= <-] Hd' Hs' Hnot.
      rewrite Hd in Hd'. injection Hd' as <-.
      rewrite Hs in Hs'. injection Hs' as <- <-. destruct Hnot.
      apply existsb_exists in Hauth as ([g v] & Hin & Hgv). simpl in Hgv.
      apply andb_true_iff in Hgv as [Hg Hv].
      apply String.eqb_eq in Hg as ->. by apply String.eqb_eq in Hv as ->.
    + split; [by destruct (supportsTokenRequest s); intros [? ?] |].
      split; [| by destruct (supportsTokenRequest s)].
      intros _. apply (Hdetect c d s Hd). by rewrite Hs.
  - simpl. split; [done |]. split; [done |].
    intros c' d' s' Groups' [= <-] Hd' Hs'.
    rewrite Hd in Hd'. injection Hd' as <-.
    rewrite Hs in Hs'. discriminate Hs'.
  - split; [by destruct (supportsTokenRequest s); intros [? ?] |].
    split; [| by destruct (supportsTokenRequest s)].
    intros _. apply (Hdetect c d s Hd). by rewrite Hs.
Qed.

End DetectProperties.

Section DetectWitnesses.

Import Util.

Lemma DetectSupportedJWTPolicy_policy_witness :
  snd (DetectSupportedJWTPolicy unit unit connect partialDiscovery (Some tt))
  = None
  ∧ fst (DetectSupportedJWTPolicy unit unit connect partialDiscovery (Some tt))
    = ThirdPartyJWT.
Proof.
  destruct (DetectSupportedJWTPolicy_policy unit unit connect partialDiscovery
              (Some tt)) as (_ & _ & Htolerated).
  split.
  - eapply (Htolerated tt tt _ [("metrics.k8s.io", "v1beta1")]);
      [reflexivity | reflexivity | reflexivity |].
    simpl. intros [Heq | []]. discriminate Heq.
  - reflexivity.
Defined.

End DetectWitnesses.
